(** * risk_and_returns: yearly return and volatility statistics

    A shallow embedding of [src/main.py]: the normalisation of the provider's
    weekly price frame, the per-year annualised statistics of one ticker, the
    combination of several tickers and the synthetic index.

    Conventions of the embedding.
    - A polars [DataFrame] is the list of its rows, in row order; each shape of
      frame that the script builds has its own record of columns.
    - A [Float64] cell is [option R]: [None] is polars' null, [Some x] a number.
      Numbers are real numbers: rounding, infinities and NaN are outside the
      model, so [x / 0] and [ln] of a non-positive number carry no meaning here.
    - The polars and numpy primitives the script calls ([shift], [group_by],
      [mean], [std], [count], [sort], [filter], [concat], [np.log], row
      selection by index) are modelled by the list functions of the first part,
      following their documented behaviour on nulls and on short inputs.
    - Python exceptions are the [Raise] results of a small error monad. *)

From Stdlib Require Import String Reals ZArith Bool Arith Lia Lra.
From Stdlib Require Import List Sorted Permutation.
Import ListNotations.

Set Implicit Arguments.

(** ** Exceptions *)

Inductive exn : Type :=
| IndexError      (* row selection out of bounds *)
| ValueError      (* [pl.concat] of an empty list of frames *)
| ProviderError.  (* anything the data provider raises *)

Inductive result (A : Type) : Type :=
| Ok (a : A)
| Raise (e : exn).

Arguments Ok {A} a.
Arguments Raise {A} e.

Definition bind {A B : Type} (c : result A) (k : A -> result B) : result B :=
  match c with
  | Ok a => k a
  | Raise e => Raise e
  end.

Notation "x <- c ;; k" := (bind c (fun x => k))
  (at level 61, c at next level, right associativity).

(** ** Column primitives *)

Section Columns.
Variables A B C : Type.

Fixpoint zip_with (f : A -> B -> C) (la : list A) (lb : list B) : list C :=
  match la, lb with
  | a :: la', b :: lb' => f a b :: zip_with f la' lb'
  | _, _ => []
  end.

(** [col.shift(n)]: every value moves [n] rows down, the first [n] cells
    become null and the column keeps its length. *)
Definition shift (n : nat) (col : list (option A)) : list (option A) :=
  firstn (length col) (repeat None n ++ col).
End Columns.

(** Arithmetic on nullable cells: a null operand gives a null result. *)
Definition null_div (a b : option R) : option R :=
  match a, b with
  | Some x, Some y => Some (x / y)%R
  | _, _ => None
  end.

Definition np_log (a : option R) : option R := option_map ln a.

Definition drop_nulls (col : list (option R)) : list R :=
  flat_map (fun c => match c with Some x => [x] | None => [] end) col.

Definition sum (xs : list R) : R := fold_right Rplus 0%R xs.

(** The arithmetic mean and the sample (ddof = 1) standard deviation of a
    list of numbers. *)
Definition mean_of (xs : list R) : R := (sum xs / INR (length xs))%R.

Definition sample_std (xs : list R) : R :=
  sqrt (sum (map (fun x => Rsqr (x - mean_of xs)) xs) / (INR (length xs) - 1)).

(** [pl.count(col)]: the number of non-null cells. *)
Definition pl_count (col : list (option R)) : nat := length (drop_nulls col).

(** [col.mean()]: nulls are skipped; null when nothing is left. *)
Definition pl_mean (col : list (option R)) : option R :=
  match drop_nulls col with
  | [] => None
  | xs => Some (mean_of xs)
  end.

(** [col.std()] (ddof = 1): nulls are skipped; null unless at least two
    values are left. *)
Definition pl_std (col : list (option R)) : option R :=
  let xs := drop_nulls col in
  if (length xs <=? 1)%nat then None else Some (sample_std xs).

(** ** Grouping and sorting *)

Section GroupBy.
Variable A : Type.
Variable key : A -> Z.

(** One pass of hash aggregation: a row joins the group of its key, or
    opens a new group behind the existing ones. *)
Fixpoint add_to_group (x : A) (groups : list (Z * list A)) : list (Z * list A) :=
  match groups with
  | [] => [(key x, [x])]
  | (k, g) :: rest =>
      if (k =? key x)%Z then (k, g ++ [x]) :: rest
      else (k, g) :: add_to_group x rest
  end.

(** [df.group_by(key)]: groups in order of first appearance, rows of a
    group in row order. *)
Definition group_by (df : list A) : list (Z * list A) :=
  fold_left (fun groups x => add_to_group x groups) df [].
End GroupBy.

Section Sort.
Variable A : Type.
Variable leb : A -> A -> bool.

Fixpoint insert (x : A) (l : list A) : list A :=
  match l with
  | [] => [x]
  | y :: l' => if leb x y then x :: l else y :: insert x l'
  end.

(** [df.sort(...)]: a stable ascending sort. *)
Definition sort (l : list A) : list A := fold_right insert [] l.
End Sort.

(** ** Frames of the script *)

Record Date : Type := { d_year : Z; d_month : Z; d_day : Z }.

(** The provider's [Date] column: a calendar date with a time of day. *)
Record Timestamp : Type := { ts_date : Date; ts_seconds : Z }.

(** A row of the provider's frame after [reset_index]; of its columns only
    [Date] and [Close] are selected by the script. *)
Record RawRow : Type := { Date_ : Timestamp; Close : option R }.

(** A row of the normalised frame: columns date, close, year, ticker. *)
Record PriceRow : Type :=
  { date : Date; close : option R; year : Z; ticker : string }.

(** A normalised row with the added [log_returns] column. *)
Record ReturnRow : Type := { price : PriceRow; log_returns : option R }.

(** A row of the intermediate [yearly] frame. *)
Record YearlyRow : Type :=
  { y_year : Z;
    yearly_log_returns : option R;
    yearly_std : option R;
    count : nat;
    y_ticker : string }.

(** A row of the yearly statistics: columns ticker, year,
    annualized_log_returns, annualized_std. *)
Record StatRow : Type :=
  { s_ticker : string;
    s_year : Z;
    annualized_log_returns : option R;
    annualized_std : option R }.

Definition WEEKS_IN_A_YEAR : R := 52%R.
Definition BRK_B : string := "BRK-B".
Definition HP : string := "HP".
Definition TSLA : string := "TSLA".
Definition GME : string := "GME".
Definition NVDA : string := "NVDA".
Definition SPY : string := "SPY".
Definition TICKERS : list string := [BRK_B; HP; TSLA; GME; NVDA].

(** ** clean_historical_data *)

Definition clean_historical_data (tk : string) (df_pd : list RawRow) : list PriceRow :=
  map (fun r =>
         let d := ts_date (Date_ r) in          (* cast({"Date": pl.Date}) *)
         {| date := d; close := Close r;
            year := d_year d;                  (* dt.year() *)
            ticker := tk |})                   (* pl.lit(ticker) *)
      df_pd.

(** ** calculate_returns_and_std *)

(** [np.log(pl.col("close") / pl.col("close").shift(1))] *)
Definition log_returns_column (df_pl : list PriceRow) : list (option R) :=
  let c := map close df_pl in
  map np_log (zip_with null_div c (shift 1 c)).

Definition with_log_returns (df_pl : list PriceRow) : list ReturnRow :=
  zip_with Build_ReturnRow df_pl (log_returns_column df_pl).

(** [df_pl.select(pl.col("ticker"))[0]], read as a literal by [pl.lit]: the
    ticker of the first row; selecting row 0 of a frame of height 0 raises. *)
Definition first_ticker (df_pl : list ReturnRow) : result string :=
  match map (fun r => ticker (price r)) df_pl with
  | [] => Raise IndexError
  | tk :: _ => Ok tk
  end.

(** The aggregation of one group: mean, std and count of its log-returns,
    and the literal ticker. *)
Definition yearly_row (tk : string) (kg : Z * list ReturnRow) : YearlyRow :=
  let col := map log_returns (snd kg) in
  {| y_year := fst kg;
     yearly_log_returns := pl_mean col;
     yearly_std := pl_std col;
     count := pl_count col;
     y_ticker := tk |}.

Definition yearly_frame (tk : string) (df_pl : list ReturnRow) : list YearlyRow :=
  map (yearly_row tk) (group_by (fun r => year (price r)) df_pl).

Definition annualize (y : YearlyRow) : StatRow :=
  {| s_ticker := y_ticker y;
     s_year := y_year y;
     annualized_log_returns :=
       option_map (fun m => exp (m * 52) - 1)%R (yearly_log_returns y);
     annualized_std :=
       option_map (fun s => s * sqrt WEEKS_IN_A_YEAR)%R (yearly_std y) |}.

(** Ascending by ticker, then by year. *)
Definition ticker_year_leb (a b : StatRow) : bool :=
  match String.compare (s_ticker a) (s_ticker b) with
  | Lt => true
  | Eq => (s_year a <=? s_year b)%Z
  | Gt => false
  end.

Definition calculate_returns_and_std (df_pl : list PriceRow) : result (list StatRow) :=
  let df_pl := with_log_returns df_pl in
  tk <- first_ticker df_pl ;;
  let yearly := yearly_frame tk df_pl in
  let annualized := sort ticker_year_leb (map annualize yearly) in
  Ok annualized.

(** ** concat_selected_tickers *)

Definition pl_concat (A : Type) (dfs : list (list A)) : result (list A) :=
  match dfs with
  | [] => Raise ValueError
  | _ => Ok (concat dfs)
  end.

Section Provider.
(** [yf.Ticker(t).history(period="max", interval="1wk").reset_index()] *)
Variable history : string -> result (list RawRow).

Fixpoint ticker_loop (tickers : list string) (ticker_dfs : list (list StatRow))
  : result (list (list StatRow)) :=
  match tickers with
  | [] => Ok ticker_dfs
  | tk :: rest =>
      ticker_df <- history tk ;;
      let ticker_df := clean_historical_data tk ticker_df in
      ticker_df <- calculate_returns_and_std ticker_df ;;
      ticker_loop rest (ticker_dfs ++ [ticker_df])
  end.

Definition concat_selected_tickers (tickers : list string) : result (list StatRow) :=
  ticker_dfs <- ticker_loop tickers [] ;;
  all <- pl_concat ticker_dfs ;;
  Ok (filter (fun r => negb (s_year r =? 2025)%Z) all).
End Provider.

(** ** construct_index *)

Definition year_leb (a b : StatRow) : bool := (s_year a <=? s_year b)%Z.

Definition index_row (kg : Z * list StatRow) : StatRow :=
  {| s_ticker := "INDEX";
     s_year := fst kg;
     annualized_log_returns := pl_mean (map annualized_log_returns (snd kg));
     annualized_std := pl_mean (map annualized_std (snd kg)) |}.

Definition construct_index (combined_df : list StatRow) : list StatRow :=
  sort year_leb (map index_row (group_by s_year combined_df)).

(** ** Notions used in the statements *)

(** The rows of a frame whose key is [k]. *)
Definition rows_of (A : Type) (key : A -> Z) (k : Z) (df : list A) : list A :=
  filter (fun x => (key x =? k)%Z) df.

(** The log-returns that fall into calendar year [y]: the column that the
    aggregation of that year's group reads. *)
Definition year_log_returns (df_pl : list PriceRow) (y : Z) : list (option R) :=
  map log_returns
      (filter (fun r => (year (price r) =? y)%Z) (with_log_returns df_pl)).

(** The row of the [yearly] frame for year [y], and the row of the result. *)
Definition yearly_of (tk : string) (df_pl : list PriceRow) (y : Z) : YearlyRow :=
  let col := year_log_returns df_pl y in
  {| y_year := y;
     yearly_log_returns := pl_mean col;
     yearly_std := pl_std col;
     count := pl_count col;
     y_ticker := tk |}.

(** The rows with their log-returns, computed in one pass that remembers the
    close of the row above. *)
Fixpoint returns_from (prev : option R) (df_pl : list PriceRow) : list ReturnRow :=
  match df_pl with
  | [] => []
  | r :: rest =>
      {| price := r; log_returns := np_log (null_div (close r) prev) |}
        :: returns_from (close r) rest
  end.

(** What the groups built from the rows read so far look like. *)
Definition grouped (A : Type) (key : A -> Z) (pre : list A)
           (groups : list (Z * list A)) : Prop :=
  NoDup (map fst groups)
  /\ (forall k g, In (k, g) groups -> g = rows_of key k pre /\ In k (map key pre))
  /\ (forall k, In k (map key pre) -> In k (map fst groups)).

(** Ascending by ticker first and year second. *)
Definition ticker_year_le (a b : StatRow) : Prop :=
  String.ltb (s_ticker a) (s_ticker b) = true
  \/ (s_ticker a = s_ticker b /\ (s_year a <= s_year b)%Z).

Definition year_le (a b : StatRow) : Prop := (s_year a <= s_year b)%Z.

(** ** Sample frames *)

Definition two_point_series (tk : string) (y : Z) (d1 d2 : Date) : list PriceRow :=
  [ {| date := d1; close := Some 100%R; year := y; ticker := tk |};
    {| date := d2; close := Some 110%R; year := y; ticker := tk |} ].

Definition two_point_example : list PriceRow :=
  two_point_series TSLA 2024
                   {| d_year := 2024; d_month := 3; d_day := 4 |}
                   {| d_year := 2024; d_month := 3; d_day := 11 |}.

Definition week (y m d : Z) (c : R) : PriceRow :=
  {| date := {| d_year := y; d_month := m; d_day := d |};
     close := Some c; year := y; ticker := TSLA |}.

(** Five weekly closes around the turn of a year. *)
Definition demo_prices : list PriceRow :=
  [ week 2023 12 18 100; week 2023 12 25 110;
    week 2024 1 1 121; week 2024 1 8 110; week 2024 1 15 121 ].

Definition demo_stats : list StatRow :=
  match calculate_returns_and_std demo_prices with
  | Ok out => out
  | Raise _ => []
  end.

(** Yearly statistics of two tickers; the second has no row for 2023 and the
    first no standard deviation for 2024. *)
Definition demo_combined : list StatRow :=
  [ {| s_ticker := TSLA; s_year := 2023;
       annualized_log_returns := Some 0.1%R; annualized_std := Some 0.2%R |};
    {| s_ticker := TSLA; s_year := 2024;
       annualized_log_returns := Some 0.3%R; annualized_std := None |};
    {| s_ticker := GME; s_year := 2024;
       annualized_log_returns := Some 0.5%R; annualized_std := Some 0.4%R |} ].

Definition demo_index_2024 : StatRow :=
  {| s_ticker := "INDEX"; s_year := 2024;
     annualized_log_returns := pl_mean [Some 0.3%R; Some 0.5%R];
     annualized_std := pl_mean [None; Some 0.4%R] |}.

(** A provider that knows one ticker, with weeks of 2024 and of 2025. *)
Definition demo_history (tk : string) : result (list RawRow) :=
  if String.eqb tk TSLA then
    Ok [ {| Date_ := {| ts_date := {| d_year := 2024; d_month := 12; d_day := 23 |};
                        ts_seconds := 0 |};
            Close := Some 100%R |};
         {| Date_ := {| ts_date := {| d_year := 2024; d_month := 12; d_day := 30 |};
                        ts_seconds := 0 |};
            Close := Some 110%R |};
         {| Date_ := {| ts_date := {| d_year := 2025; d_month := 1; d_day := 6 |};
                        ts_seconds := 0 |};
            Close := Some 121%R |} ]
  else Raise ProviderError.

Definition demo_selected : list StatRow :=
  match concat_selected_tickers demo_history [TSLA] with
  | Ok out => out
  | Raise _ => []
  end.

(** Evaluation of the column pipeline on a concrete frame. *)
Ltac run_frame :=
  unfold pl_count, year_log_returns, with_log_returns, log_returns_column,
         shift, rows_of;
  simpl.

(** ** Further notions used in the statements *)



(** The (year, log-return) cells of a frame, computed from its
    (year, close) cells alone. *)
Fixpoint year_cells (prev : option R) (yc : list (Z * option R))
  : list (Z * option R) :=
  match yc with
  | [] => []
  | (y, c) :: rest => (y, np_log (null_div c prev)) :: year_cells c rest
  end.

(** The aggregation of one group of (year, log-return) cells. *)
Definition cell_row (tk : string) (kg : Z * list (Z * option R)) : YearlyRow :=
  let col := map snd (snd kg) in
  {| y_year := fst kg;
     yearly_log_returns := pl_mean col;
     yearly_std := pl_std col;
     count := pl_count col;
     y_ticker := tk |}.


(** The sample frame with its dates blanked and other tickers on the rows
    below the first. *)
Definition demo_prices_undated : list PriceRow :=
  match demo_prices with
  | [] => []
  | r :: rest =>
      {| date := {| d_year := 0; d_month := 0; d_day := 0 |};
         close := close r; year := year r; ticker := ticker r |}
        :: map (fun x => {| date := {| d_year := 0; d_month := 0; d_day := 0 |};
                            close := close x; year := year x; ticker := GME |})
               rest
  end.

(** A row of the index that carries the values of [r]. *)
Definition relabel_index (r : StatRow) : StatRow :=
  {| s_ticker := "INDEX";
     s_year := s_year r;
     annualized_log_returns := annualized_log_returns r;
     annualized_std := annualized_std r |}.

(** The mean of two cells, nulls skipped. *)
Definition pair_mean (a b : option R) : option R :=
  match a, b with
  | Some x, Some y => Some ((x + y) / 2)%R
  | Some x, None => Some x
  | None, Some y => Some y
  | None, None => None
  end.

(** One turn of the loop of concat_selected_tickers: fetch, normalise,
    compute. *)
Definition ticker_stats (history : string -> result (list RawRow)) (tk : string)
  : result (list StatRow) :=
  raw <- history tk ;;
  calculate_returns_and_std (clean_historical_data tk raw).

(** The identity of a row of the combined frame. *)
Definition stat_key (s : StatRow) : string * Z := (s_ticker s, s_year s).

(** The statements that [src/main.py] runs at module level:
    [combined_df = concat_selected_tickers(TICKERS)] and
    [index_df = construct_index(combined_df)]. *)
Definition main_script (history : string -> result (list RawRow))
  : result (list StatRow * list StatRow) :=
  combined_df <- concat_selected_tickers history TICKERS ;;
  let index_df := construct_index combined_df in
  Ok (combined_df, index_df).

(** A provider with two weeks of 2024 and one of 2025 for every ticker. *)
Definition demo_market (tk : string) : result (list RawRow) :=
  demo_history TSLA.

Definition demo_main : list StatRow * list StatRow :=
  match main_script demo_market with
  | Ok frames => frames
  | Raise _ => ([], [])
  end.

(** ** extract_historical_data.py

    The script fetches one year of daily history per ticker and writes it to
    a CSV file.  The columns of the provider's frame other than [Date] are
    carried along untouched, as a value of an arbitrary type [Cols].  The
    files are modelled by the list of the frames written, the latest first:
    a file holds the frame of the latest write to its path.  The directory
    [extracted_data] is taken to exist. *)

Record DailyRow (Cols : Type) : Type :=
  { day_Date : Timestamp; day_cols : Cols }.

Record ExportRow (Cols : Type) : Type :=
  { x_Date : Date; x_cols : Cols; x_ticker : string }.

(** [f"extracted_data/{ticker}.csv"] *)
Definition csv_path (tk : string) : string :=
  ("extracted_data/" ++ tk ++ ".csv")%string.

Section Extract.
Variable Cols : Type.

(** [yf.Ticker(ticker).history(period="1y").reset_index()] *)
Variable daily_history : string -> result (list (DailyRow Cols)).

Definition Files : Type := list (string * list (ExportRow Cols)).

Definition write_csv (path : string) (df : list (ExportRow Cols)) (fs : Files)
  : Files :=
  (path, df) :: fs.

Fixpoint read_csv (path : string) (fs : Files) : option (list (ExportRow Cols)) :=
  match fs with
  | [] => None
  | (p, df) :: rest => if String.eqb p path then Some df else read_csv path rest
  end.

(** [cast({"Date": pl.Date}).with_columns(ticker=pl.lit(ticker))] *)
Definition export_frame (tk : string) (ticker_df : list (DailyRow Cols))
  : list (ExportRow Cols) :=
  map (fun r => {| x_Date := ts_date (day_Date r);
                   x_cols := day_cols r;
                   x_ticker := tk |})
      ticker_df.

(** The loop over the tickers: the files as they are when the loop ends or
    the provider raises. *)
Fixpoint extract_loop (tickers : list string) (fs : Files)
  : Files * result unit :=
  match tickers with
  | [] => (fs, Ok tt)
  | tk :: rest =>
      match daily_history tk with
      | Raise e => (fs, Raise e)
      | Ok ticker_df =>
          let df_pl := export_frame tk ticker_df in
          extract_loop rest (write_csv (csv_path tk) df_pl fs)
      end
  end.

Definition extract_historical_data (fs : Files) : Files * result unit :=
  extract_loop TICKERS fs.
End Extract.

(** A provider of daily rows that knows two tickers. *)
Definition demo_daily (tk : string) : result (list (DailyRow R)) :=
  if String.eqb tk TSLA then
    Ok [ {| day_Date := {| ts_date := {| d_year := 2024; d_month := 5; d_day := 2 |};
                           ts_seconds := 14400 |};
            day_cols := 180%R |} ]
  else if String.eqb tk GME then
    Ok [ {| day_Date := {| ts_date := {| d_year := 2024; d_month := 5; d_day := 2 |};
                           ts_seconds := 14400 |};
            day_cols := 11%R |} ]
  else Raise ProviderError.

(** * Properties of the primitives *)

(** ** The error monad *)

Lemma bind_Ok_inv (A B : Type) (c : result A) (k : A -> result B) (b : B) :
  bind c k = Ok b -> exists a, c = Ok a /\ k a = Ok b.
Proof.
  destruct c as [a | e]; simpl; intros H.
  - exists a; split; [reflexivity | exact H].
  - discriminate H.
Qed.

(** ** shift and the log-return column *)

Lemma shift_one (A : Type) (col : list (option A)) :
  shift 1 col = firstn (length col) (None :: col).
Proof. reflexivity. Qed.

Lemma shift_length (A : Type) (n : nat) (col : list (option A)) :
  length (shift n col) = length col.
Proof.
  unfold shift. rewrite length_firstn, length_app, repeat_length. lia.
Qed.

Lemma zip_shifted (c : list (option R)) (p : option R) (df : list PriceRow) :
  c = map close df ->
  zip_with Build_ReturnRow df
    (map np_log (zip_with null_div c (firstn (length c) (p :: c))))
  = returns_from p df.
Proof.
  intros ->. revert p.
  induction df as [| r rest IH]; intros p; simpl.
  - reflexivity.
  - f_equal. apply IH.
Qed.

Lemma with_log_returns_unfold (df_pl : list PriceRow) :
  with_log_returns df_pl = returns_from None df_pl.
Proof.
  unfold with_log_returns, log_returns_column.
  rewrite shift_one. now apply zip_shifted.
Qed.

Lemma returns_from_price (p : option R) (df : list PriceRow) :
  map price (returns_from p df) = df.
Proof.
  revert p; induction df as [| r rest IH]; intros p; simpl;
    [reflexivity | now rewrite IH].
Qed.

Lemma returns_from_length (p : option R) (df : list PriceRow) :
  length (returns_from p df) = length df.
Proof. rewrite <- (returns_from_price p df) at 2. now rewrite length_map. Qed.

Lemma last_cons (A : Type) (a d : A) (l : list A) :
  last (a :: l) d = last l a.
Proof.
  revert a d; induction l as [| b l IH]; intros a d.
  - reflexivity.
  - change (last (a :: b :: l) d) with (last (b :: l) d).
    now rewrite !IH.
Qed.

Lemma returns_from_app (p : option R) (df1 df2 : list PriceRow) :
  returns_from p (df1 ++ df2)
  = returns_from p df1 ++ returns_from (last (map close df1) p) df2.
Proof.
  revert p; induction df1 as [| r rest IH]; intros p.
  - reflexivity.
  - cbn [app returns_from map]. rewrite IH, last_cons. reflexivity.
Qed.

(** ** group_by *)

Section GroupByFacts.
Variable A : Type.
Variable key : A -> Z.

Local Abbreviation rows := (rows_of key).

Lemma rows_of_app (k : Z) (l1 l2 : list A) :
  rows k (l1 ++ l2) = rows k l1 ++ rows k l2.
Proof. apply filter_app. Qed.

Lemma rows_of_In (k : Z) (l : list A) (x : A) :
  In x (rows k l) <-> In x l /\ key x = k.
Proof.
  unfold rows_of. rewrite filter_In, Z.eqb_eq. reflexivity.
Qed.

Lemma add_to_group_keys (x : A) (groups : list (Z * list A)) (k : Z) :
  In k (map fst (add_to_group key x groups))
  <-> In k (map fst groups) \/ k = key x.
Proof.
  induction groups as [| [k' g'] rest IH]; simpl.
  - intuition.
  - destruct (Z.eqb_spec k' (key x)) as [E | E]; simpl.
    + subst. intuition.
    + rewrite IH. intuition.
Qed.

Lemma add_to_group_NoDup (x : A) (groups : list (Z * list A)) :
  NoDup (map fst groups) -> NoDup (map fst (add_to_group key x groups)).
Proof.
  induction groups as [| [k' g'] rest IH]; simpl; intros H.
  - constructor; [intros [] | constructor].
  - inversion H as [| ? ? Hnotin Hrest]; subst.
    destruct (Z.eqb_spec k' (key x)) as [E | E]; simpl.
    + constructor; assumption.
    + constructor; [| auto].
      rewrite add_to_group_keys. intros [Hin | Heq]; [auto | congruence].
Qed.

Lemma add_to_group_In (x : A) (groups : list (Z * list A)) (k : Z) (g : list A) :
  NoDup (map fst groups) ->
  In (k, g) (add_to_group key x groups) ->
  (k <> key x /\ In (k, g) groups)
  \/ (k = key x /\ exists g0, In (k, g0) groups /\ g = g0 ++ [x])
  \/ (k = key x /\ ~ In k (map fst groups) /\ g = [x]).
Proof.
  induction groups as [| [k' g'] rest IH]; simpl; intros Hnd Hin.
  - destruct Hin as [Heq | []]. inversion Heq; subst. right; right. intuition.
  - inversion Hnd as [| ? ? Hnotin Hrest]; subst.
    destruct (Z.eqb_spec k' (key x)) as [E | E].
    + destruct Hin as [Heq | Hin].
      * inversion Heq; subst. right; left. split; [reflexivity |].
        exists g'. split; [now left | reflexivity].
      * left. split; [| now right].
        intros ->. apply Hnotin. rewrite E.
        change (key x) with (fst (key x, g)). now apply in_map.
    + destruct Hin as [Heq | Hin].
      * inversion Heq; subst. left. split; [assumption | now left].
      * destruct (IH Hrest Hin) as [[Hk H1] | [[Hk [g0 [H1 H2]]] | [Hk [H1 H2]]]].
        -- left. split; [assumption | now right].
        -- right; left. split; [assumption |]. exists g0. split; [now right | assumption].
        -- right; right. split; [assumption |]. split; [| assumption].
           intros [Heq | Hin']; [congruence | auto].
Qed.

Lemma grouped_step (pre : list A) (x : A) (groups : list (Z * list A)) :
  grouped key pre groups -> grouped key (pre ++ [x]) (add_to_group key x groups).
Proof.
  intros (Hnd & Hrows & Hkeys). repeat split.
  - now apply add_to_group_NoDup.
  - destruct (add_to_group_In x groups k g Hnd H)
      as [[Hk H1] | [[Hk [g0 [H1 H2]]] | [Hk [H1 H2]]]].
    + destruct (Hrows _ _ H1) as [-> _].
      rewrite rows_of_app. unfold rows_of at 3. simpl.
      destruct (Z.eqb_spec (key x) k); [congruence | now rewrite app_nil_r].
    + destruct (Hrows _ _ H1) as [-> _]. subst.
      rewrite rows_of_app. unfold rows_of at 3. simpl.
      now rewrite Z.eqb_refl.
    + subst. rewrite rows_of_app. unfold rows_of at 2. simpl.
      rewrite Z.eqb_refl.
      replace (rows (key x) pre) with (@nil A); [reflexivity |].
      destruct (rows (key x) pre) as [| z zs] eqn:E; [reflexivity |].
      exfalso. apply H1, Hkeys.
      assert (Hz : In z (rows (key x) pre)) by (rewrite E; now left).
      apply rows_of_In in Hz. destruct Hz as [Hz <-]. now apply in_map.
  - destruct (add_to_group_In x groups k g Hnd H)
      as [[Hk H1] | [[Hk _] | [Hk _]]];
      rewrite map_app, in_app_iff; simpl.
    + left. now apply (Hrows _ _ H1).
    + right. left. congruence.
    + right. left. congruence.
  - intros k Hk. rewrite map_app, in_app_iff in Hk. simpl in Hk.
    rewrite add_to_group_keys.
    destruct Hk as [Hk | [Hk | []]]; [left; auto | right; congruence].
Qed.

Lemma grouped_fold (l pre : list A) (groups : list (Z * list A)) :
  grouped key pre groups ->
  grouped key (pre ++ l) (fold_left (fun gs x => add_to_group key x gs) l groups).
Proof.
  revert pre groups; induction l as [| x l IH]; intros pre groups H; simpl.
  - now rewrite app_nil_r.
  - replace (pre ++ x :: l) with ((pre ++ [x]) ++ l)
      by (now rewrite <- app_assoc).
    apply IH. now apply grouped_step.
Qed.

Lemma group_by_grouped (df : list A) : grouped key df (group_by key df).
Proof.
  apply (grouped_fold df (pre := [])). repeat split; simpl.
  - constructor.
  - destruct H.
  - destruct H.
  - intros k [].
Qed.

Lemma group_by_NoDup (df : list A) : NoDup (map fst (group_by key df)).
Proof. apply group_by_grouped. Qed.

Lemma group_by_rows (df : list A) (k : Z) (g : list A) :
  In (k, g) (group_by key df) -> g = rows k df /\ In k (map key df).
Proof. apply group_by_grouped. Qed.

Lemma group_by_keys (df : list A) (k : Z) :
  In k (map fst (group_by key df)) <-> In k (map key df).
Proof.
  split.
  - rewrite in_map_iff. intros [[k' g] [<- Hin]]. simpl.
    now apply (group_by_rows df k' g).
  - apply group_by_grouped.
Qed.

Lemma add_to_group_fresh (x : A) (groups : list (Z * list A)) :
  ~ In (key x) (map fst groups) ->
  add_to_group key x groups = groups ++ [(key x, [x])].
Proof.
  induction groups as [| [k' g'] rest IH]; simpl; intros H.
  - reflexivity.
  - destruct (Z.eqb_spec k' (key x)) as [E | E].
    + exfalso. apply H. now left.
    + rewrite IH; [reflexivity | intuition].
Qed.

(** Rows with pairwise distinct keys each form their own group, in row
    order. *)
Lemma group_by_distinct (df : list A) :
  NoDup (map key df) -> group_by key df = map (fun x => (key x, [x])) df.
Proof.
  unfold group_by. change (map (fun x => (key x, [x])) df)
    with ([] ++ map (fun x : A => (key x, [x])) df).
  assert (H : forall l groups,
             NoDup (map fst groups ++ map key l) ->
             fold_left (fun gs x => add_to_group key x gs) l groups
             = groups ++ map (fun x => (key x, [x])) l).
  { induction l as [| x l IH]; intros groups Hnd; simpl.
    - now rewrite app_nil_r.
    - simpl in Hnd. rewrite add_to_group_fresh.
      + rewrite IH; [now rewrite <- app_assoc |].
        rewrite map_app. simpl. now rewrite <- app_assoc.
      + apply NoDup_remove_2 in Hnd. rewrite in_app_iff in Hnd. intuition. }
  intros Hnd. now apply H.
Qed.
End GroupByFacts.

(** ** sort *)

Section SortFacts.
Variable A : Type.
Variable leb : A -> A -> bool.

Local Abbreviation le := (fun a b => leb a b = true).

Lemma insert_perm (x : A) (l : list A) : Permutation (insert leb x l) (x :: l).
Proof.
  induction l as [| y l IH]; simpl.
  - apply Permutation_refl.
  - destruct (leb x y).
    + apply Permutation_refl.
    + eapply perm_trans; [apply perm_skip, IH | apply perm_swap].
Qed.

Lemma sort_perm (l : list A) : Permutation (sort leb l) l.
Proof.
  induction l as [| x l IH]; simpl.
  - apply perm_nil.
  - eapply perm_trans; [apply insert_perm | now apply perm_skip].
Qed.

Lemma sort_In (l : list A) (x : A) : In x (sort leb l) <-> In x l.
Proof.
  split; apply Permutation_in;
    [apply sort_perm | apply Permutation_sym, sort_perm].
Qed.

Lemma sort_map_perm (B : Type) (f : A -> B) (l : list A) :
  Permutation (map f (sort leb l)) (map f l).
Proof. apply Permutation_map, sort_perm. Qed.

Section Ordered.
(** The comparison need only be a total preorder on the rows at hand. *)
Variable P : A -> Prop.
Hypothesis leb_total :
  forall x y, P x -> P y -> leb x y = true \/ leb y x = true.
Hypothesis leb_trans :
  forall x y z, P x -> P y -> P z ->
                leb x y = true -> leb y z = true -> leb x z = true.

Lemma insert_sorted (x : A) (l : list A) :
  P x -> Forall P l ->
  StronglySorted le l -> StronglySorted le (insert leb x l).
Proof.
  intros Px HP Hs. induction Hs as [| y l Hs IH Hy]; simpl.
  - repeat constructor.
  - inversion HP as [| ? ? Py HPl]; subst.
    destruct (leb x y) eqn:E.
    + constructor; [now constructor |].
      constructor; [exact E |].
      rewrite Forall_forall in *. intros z Hz.
      apply (leb_trans Px Py (HPl z Hz) E (Hy z Hz)).
    + constructor; [now apply IH |].
      rewrite Forall_forall in *. intros z Hz.
      apply (Permutation_in _ (insert_perm x l)) in Hz.
      destruct Hz as [<- | Hz]; [| now apply Hy].
      destruct (leb_total Px Py) as [H | H]; [congruence | exact H].
Qed.

Lemma sort_sorted (l : list A) :
  Forall P l -> StronglySorted le (sort leb l).
Proof.
  induction l as [| x l IH]; simpl; intros HP.
  - constructor.
  - inversion HP; subst. apply insert_sorted; auto.
    rewrite Forall_forall in *. intros z Hz. rewrite sort_In in Hz. auto.
Qed.
End Ordered.

Lemma insert_head (x : A) (l : list A) :
  HdRel le x l -> insert leb x l = x :: l.
Proof.
  intros H. destruct H as [| y l E]; simpl; [reflexivity | now rewrite E].
Qed.

(** Sorting a frame that is already in order returns it unchanged. *)
Lemma sort_of_sorted (l : list A) : Sorted le l -> sort leb l = l.
Proof.
  induction 1 as [| x l Hs IH Hhd]; simpl.
  - reflexivity.
  - rewrite IH. now apply insert_head.
Qed.
End SortFacts.

Lemma StronglySorted_impl (A : Type) (R1 R2 : A -> A -> Prop) (l : list A) :
  (forall a b, In a l -> In b l -> R1 a b -> R2 a b) ->
  StronglySorted R1 l -> StronglySorted R2 l.
Proof.
  intros Himp Hs. induction Hs as [| x l Hs IH Hx].
  - constructor.
  - constructor.
    + apply IH. intros a b Ha Hb. apply Himp; now right.
    + rewrite Forall_forall in *. intros z Hz.
      apply Himp; [now left | now right | now apply Hx].
Qed.

Lemma StronglySorted_map (A B : Type) (f : A -> B) (R : B -> B -> Prop) (l : list A) :
  StronglySorted (fun a b => R (f a) (f b)) l -> StronglySorted R (map f l).
Proof.
  induction 1 as [| x l Hs IH Hx]; simpl; constructor; [assumption |].
  rewrite Forall_forall in *. intros z Hz.
  apply in_map_iff in Hz. destruct Hz as [a [<- Ha]]. now apply Hx.
Qed.

(** ** Aggregations *)

Lemma mean_of_single (x : R) : mean_of [x] = x.
Proof. unfold mean_of. simpl. field. Qed.

Lemma pl_mean_single (c : option R) : pl_mean [c] = c.
Proof.
  destruct c as [x |]; [| reflexivity].
  unfold pl_mean. simpl. now rewrite mean_of_single.
Qed.

Lemma pl_mean_defined (col : list (option R)) :
  (1 <= pl_count col)%nat -> pl_mean col = Some (mean_of (drop_nulls col)).
Proof.
  unfold pl_count, pl_mean. destruct (drop_nulls col); simpl; [lia | reflexivity].
Qed.

Lemma pl_std_defined (col : list (option R)) :
  (2 <= pl_count col)%nat -> pl_std col = Some (sample_std (drop_nulls col)).
Proof.
  unfold pl_count, pl_std. intros H.
  destruct (Nat.leb_spec (length (drop_nulls col)) 1); [lia | reflexivity].
Qed.

Lemma pl_std_undefined (col : list (option R)) :
  (pl_count col < 2)%nat -> pl_std col = None.
Proof.
  unfold pl_count, pl_std. intros H.
  destruct (Nat.leb_spec (length (drop_nulls col)) 1); [reflexivity | lia].
Qed.

Lemma drop_nulls_all_defined (xs : list R) : drop_nulls (map Some xs) = xs.
Proof.
  induction xs as [| x xs IH]; simpl; [reflexivity | now rewrite <- IH at 2].
Qed.

(** * Properties of calculate_returns_and_std *)

Lemma returns_from_nth (p : option R) (df : list PriceRow) (i : nat)
      (prev cur : PriceRow) :
  nth_error df i = Some prev ->
  nth_error df (S i) = Some cur ->
  nth_error (returns_from p df) (S i)
  = Some {| price := cur;
            log_returns := np_log (null_div (close cur) (close prev)) |}.
Proof.
  revert p i; induction df as [| x df IH]; intros p i Hprev Hcur.
  - destruct i; discriminate Hprev.
  - destruct i as [| j].
    + simpl in Hprev. injection Hprev as ->.
      destruct df as [| z df']; [discriminate Hcur |].
      simpl in Hcur. injection Hcur as ->. reflexivity.
    + simpl in Hprev. cbn [returns_from].
      change (nth_error (returns_from (close x) df) (S j) = Some
                {| price := cur;
                   log_returns := np_log (null_div (close cur) (close prev)) |}).
      now apply IH.
Qed.

Lemma null_div_null (a : option R) : null_div a None = None.
Proof. now destruct a. Qed.

Lemma with_log_returns_years (df_pl : list PriceRow) :
  map (fun r => year (price r)) (with_log_returns df_pl) = map year df_pl.
Proof.
  rewrite with_log_returns_unfold.
  rewrite <- (returns_from_price None df_pl) at 2.
  now rewrite map_map.
Qed.

Lemma yearly_frame_In (tk : string) (df_pl : list PriceRow) (yr : YearlyRow) :
  In yr (yearly_frame tk (with_log_returns df_pl))
  <-> exists y, In y (map year df_pl) /\ yr = yearly_of tk df_pl y.
Proof.
  unfold yearly_frame. rewrite in_map_iff. split.
  - intros [[k g] [<- Hin]]. exists k.
    apply group_by_rows in Hin. destruct Hin as [-> Hk].
    rewrite with_log_returns_years in Hk. split; [exact Hk | reflexivity].
  - intros [y [Hy ->]].
    rewrite <- with_log_returns_years in Hy.
    apply group_by_keys in Hy. apply in_map_iff in Hy.
    destruct Hy as [[k g] [Hk Hin]]. simpl in Hk. subst k.
    exists (y, g). split; [| exact Hin].
    apply group_by_rows in Hin. destruct Hin as [-> _]. reflexivity.
Qed.

Lemma yearly_frame_years (tk : string) (df : list ReturnRow) :
  map y_year (yearly_frame tk df)
  = map fst (group_by (fun r => year (price r)) df).
Proof. unfold yearly_frame. rewrite map_map. reflexivity. Qed.

Lemma yearly_frame_ticker (tk : string) (df : list ReturnRow) :
  Forall (fun yr => y_ticker yr = tk) (yearly_frame tk df).
Proof.
  unfold yearly_frame. rewrite Forall_forall. intros yr Hin.
  apply in_map_iff in Hin. destruct Hin as [kg [<- _]]. reflexivity.
Qed.

(** On a frame with at least one row the function returns; the literal
    ticker is that of the first row. *)
Lemma calculate_returns_and_std_cons (r : PriceRow) (rest : list PriceRow) :
  calculate_returns_and_std (r :: rest)
  = Ok (sort ticker_year_leb
          (map annualize
               (yearly_frame (ticker r) (with_log_returns (r :: rest))))).
Proof.
  unfold calculate_returns_and_std, first_ticker.
  rewrite (with_log_returns_unfold (r :: rest)). reflexivity.
Qed.

Lemma calculate_returns_and_std_nil :
  calculate_returns_and_std [] = Raise IndexError.
Proof. reflexivity. Qed.

Lemma calculate_returns_and_std_Ok (df_pl : list PriceRow) (out : list StatRow) :
  calculate_returns_and_std df_pl = Ok out ->
  exists tk,
    out = sort ticker_year_leb
            (map annualize (yearly_frame tk (with_log_returns df_pl))).
Proof.
  destruct df_pl as [| r rest].
  - rewrite calculate_returns_and_std_nil. discriminate.
  - rewrite calculate_returns_and_std_cons. intros H. injection H as <-.
    now exists (ticker r).
Qed.

Lemma calculate_returns_and_std_In (df_pl : list PriceRow) (out : list StatRow) :
  calculate_returns_and_std df_pl = Ok out ->
  exists tk, forall s,
      In s out <->
      exists y, In y (map year df_pl) /\ s = annualize (yearly_of tk df_pl y).
Proof.
  intros H. destruct (calculate_returns_and_std_Ok _ H) as [tk ->].
  exists tk. intros s. rewrite sort_In, in_map_iff. split.
  - intros [yr [<- Hin]]. apply yearly_frame_In in Hin.
    destruct Hin as [y [Hy ->]]. now exists y.
  - intros [y [Hy ->]]. exists (yearly_of tk df_pl y).
    split; [reflexivity |]. apply yearly_frame_In. now exists y.
Qed.

Lemma calculate_returns_and_std_years (df_pl : list PriceRow) (out : list StatRow) :
  calculate_returns_and_std df_pl = Ok out -> NoDup (map s_year out).
Proof.
  intros H. destruct (calculate_returns_and_std_Ok _ H) as [tk ->].
  eapply Permutation_NoDup; [apply Permutation_sym, sort_map_perm |].
  rewrite map_map.
  change (fun x => s_year (annualize x)) with y_year.
  rewrite yearly_frame_years. apply group_by_NoDup.
Qed.

(** The one row of the result for a year of the input. *)
Lemma calculate_returns_and_std_year (df_pl : list PriceRow) (out : list StatRow)
      (y : Z) :
  calculate_returns_and_std df_pl = Ok out ->
  In y (map year df_pl) ->
  exists tk,
    In (annualize (yearly_of tk df_pl y)) out
    /\ forall s, In s out -> s_year s = y -> s = annualize (yearly_of tk df_pl y).
Proof.
  intros H Hy. destruct (calculate_returns_and_std_In _ H) as [tk Hin].
  exists tk. split.
  - apply Hin. now exists y.
  - intros s Hs Hys. apply Hin in Hs. destruct Hs as [y' [_ ->]].
    simpl in Hys. now subst y'.
Qed.

(** C1. Every row of the frame gets a log-return; the first row's log-return
    is null, having no row above it, and the log-return of every later row
    is the natural logarithm of its close divided by the close of the row
    immediately above (null when either close is null). *)
Theorem log_return_of_consecutive_closes (df_pl : list PriceRow) :
  map price (with_log_returns df_pl) = df_pl
  /\ (forall first,
         nth_error df_pl 0 = Some first ->
         nth_error (with_log_returns df_pl) 0
         = Some {| price := first; log_returns := None |})
  /\ (forall i prev cur,
         nth_error df_pl i = Some prev ->
         nth_error df_pl (S i) = Some cur ->
         nth_error (with_log_returns df_pl) (S i)
         = Some {| price := cur;
                   log_returns := np_log (null_div (close cur) (close prev)) |}
         /\ forall a b,
             close cur = Some a -> close prev = Some b ->
             nth_error (with_log_returns df_pl) (S i)
             = Some {| price := cur; log_returns := Some (ln (a / b)) |}).
Proof.
  rewrite with_log_returns_unfold. split; [| split].
  - apply returns_from_price.
  - intros first H. destruct df_pl as [| r rest]; [discriminate H |].
    simpl in H. injection H as ->. simpl. now rewrite null_div_null.
  - intros i prev cur Hprev Hcur.
    pose proof (returns_from_nth None df_pl i Hprev Hcur) as Hnth.
    split; [exact Hnth |].
    intros a b Ha Hb. rewrite Hnth, Ha, Hb. reflexivity.
Qed.

(** C9. On a frame without rows the selection of row 0 raises, and so does
    the function; on every frame with at least one row it returns. *)
Theorem calculate_returns_and_std_needs_a_row :
  first_ticker (with_log_returns []) = Raise IndexError
  /\ calculate_returns_and_std [] = Raise IndexError
  /\ (forall r rest, first_ticker (with_log_returns (r :: rest)) = Ok (ticker r))
  /\ (forall r rest, exists out, calculate_returns_and_std (r :: rest) = Ok out).
Proof.
  split; [reflexivity |]. split; [reflexivity |]. split.
  - intros r rest. rewrite with_log_returns_unfold. reflexivity.
  - intros r rest. rewrite calculate_returns_and_std_cons. eauto.
Qed.

(** C2. For every calendar year of the input the result has exactly one row;
    its annualized_std is the standard deviation of the year's log-returns
    times the square root of 52 and its annualized_log_returns is
    exp(52 * mean) - 1 of the year's log-returns.  The standard deviation is
    the sample one whenever the year has two defined log-returns, and the mean
    the arithmetic one whenever it has one. *)
Theorem annualized_statistics_of_a_year
        (df_pl : list PriceRow) (out : list StatRow) (y : Z) :
  calculate_returns_and_std df_pl = Ok out ->
  In y (map year df_pl) ->
  let col := year_log_returns df_pl y in
  exists s,
    In s out /\ s_year s = y
    /\ (forall s', In s' out -> s_year s' = y -> s' = s)
    /\ annualized_std s = option_map (fun sd => sd * sqrt 52)%R (pl_std col)
    /\ annualized_log_returns s
       = option_map (fun m => exp (52 * m) - 1)%R (pl_mean col)
    /\ ((2 <= pl_count col)%nat ->
        annualized_std s
        = Some (sample_std (drop_nulls col) * sqrt 52)%R)
    /\ ((1 <= pl_count col)%nat ->
        annualized_log_returns s
        = Some (exp (52 * mean_of (drop_nulls col)) - 1)%R).
Proof.
  intros H Hy col.
  destruct (calculate_returns_and_std_year _ _ H Hy) as [tk [Hin Huniq]].
  exists (annualize (yearly_of tk df_pl y)).
  assert (Hret : annualized_log_returns (annualize (yearly_of tk df_pl y))
                 = option_map (fun m => exp (52 * m) - 1)%R (pl_mean col)).
  { simpl. fold col. destruct (pl_mean col) as [m |]; simpl; [| reflexivity].
    now rewrite (Rmult_comm m 52). }
  repeat split; try assumption.
  - intros Hc. simpl. fold col. now rewrite (pl_std_defined _ Hc).
  - intros Hc. rewrite Hret. now rewrite (pl_mean_defined _ Hc).
Qed.

(** C5. A year with fewer than two defined log-returns does not make the
    function raise: the result has the year's row, and its annualized_std is
    null because the standard deviation of the year is. *)
Theorem short_year_has_null_std (df_pl : list PriceRow) (y : Z) :
  In y (map year df_pl) ->
  (pl_count (year_log_returns df_pl y) < 2)%nat ->
  pl_std (year_log_returns df_pl y) = None
  /\ exists out s,
      calculate_returns_and_std df_pl = Ok out
      /\ In s out /\ s_year s = y
      /\ (forall s', In s' out -> s_year s' = y -> s' = s)
      /\ annualized_std s = None.
Proof.
  intros Hy Hc. split; [now apply pl_std_undefined |].
  destruct df_pl as [| r rest]; [destruct Hy |].
  pose proof (calculate_returns_and_std_cons r rest) as Hout.
  set (out := sort _ _) in Hout.
  destruct (calculate_returns_and_std_year _ _ Hout Hy) as [tk [Hin Huniq]].
  exists out, (annualize (yearly_of tk (r :: rest) y)).
  repeat split; try assumption.
  simpl. now rewrite (pl_std_undefined _ Hc).
Qed.

(** ** Row order *)

Lemma string_compare_refl (s : string) : String.compare s s = Eq.
Proof.
  pose proof (String.compare_antisym s s) as H.
  destruct (String.compare s s); [reflexivity | discriminate H | discriminate H].
Qed.

Lemma ticker_year_leb_le (a b : StatRow) :
  ticker_year_leb a b = true -> ticker_year_le a b.
Proof.
  unfold ticker_year_leb, ticker_year_le, String.ltb.
  destruct (String.compare (s_ticker a) (s_ticker b)) eqn:E; intros H.
  - right. split; [now apply String.compare_eq_iff | now apply Z.leb_le].
  - now left.
  - discriminate H.
Qed.

Lemma ticker_year_leb_same_ticker (tk : string) (a b : StatRow) :
  s_ticker a = tk -> s_ticker b = tk ->
  ticker_year_leb a b = (s_year a <=? s_year b)%Z.
Proof.
  intros Ha Hb. unfold ticker_year_leb.
  now rewrite Ha, Hb, string_compare_refl.
Qed.

Lemma annualized_rows_ticker (tk : string) (df : list ReturnRow) :
  Forall (fun s => s_ticker s = tk) (map annualize (yearly_frame tk df)).
Proof.
  rewrite Forall_forall. intros s Hs. apply in_map_iff in Hs.
  destruct Hs as [yr [<- Hyr]]. simpl.
  pose proof (yearly_frame_ticker tk df) as H.
  rewrite Forall_forall in H. now apply H.
Qed.

Lemma sort_ticker_year_sorted (tk : string) (l : list StatRow) :
  Forall (fun s => s_ticker s = tk) l ->
  StronglySorted ticker_year_le (sort ticker_year_leb l).
Proof.
  intros H.
  apply StronglySorted_impl
    with (R1 := fun a b => ticker_year_leb a b = true).
  - intros a b _ _. apply ticker_year_leb_le.
  - apply sort_sorted with (P := fun s => s_ticker s = tk); [| | exact H].
    + intros x y Hx Hy.
      rewrite (ticker_year_leb_same_ticker _ _ Hx Hy),
              (ticker_year_leb_same_ticker _ _ Hy Hx), !Z.leb_le. lia.
    + intros x y z Hx Hy Hz.
      rewrite (ticker_year_leb_same_ticker _ _ Hx Hy),
              (ticker_year_leb_same_ticker _ _ Hy Hz),
              (ticker_year_leb_same_ticker _ _ Hx Hz), !Z.leb_le. lia.
Qed.

Lemma sort_year_sorted (l : list StatRow) :
  StronglySorted year_le (sort year_leb l).
Proof.
  apply StronglySorted_impl with (R1 := fun a b => year_leb a b = true).
  - intros a b _ _. unfold year_leb, year_le. apply Z.leb_le.
  - apply sort_sorted with (P := fun _ => True).
    + intros x y _ _. unfold year_leb. rewrite !Z.leb_le. lia.
    + intros x y z _ _ _. unfold year_leb. rewrite !Z.leb_le. lia.
    + rewrite Forall_forall. trivial.
Qed.

(** C6. The frame returned by calculate_returns_and_std is in ascending
    order of ticker first and year second, and the frame returned by
    construct_index is in ascending order of year. *)
Theorem outputs_are_sorted
        (df_pl : list PriceRow) (out combined_df : list StatRow) :
  calculate_returns_and_std df_pl = Ok out ->
  StronglySorted ticker_year_le out
  /\ StronglySorted year_le (construct_index combined_df).
Proof.
  intros H. split.
  - destruct (calculate_returns_and_std_Ok _ H) as [tk ->].
    apply sort_ticker_year_sorted with (tk := tk), annualized_rows_ticker.
  - apply sort_year_sorted.
Qed.

(** * Properties of construct_index *)

Lemma construct_index_In (combined_df : list StatRow) (r : StatRow) :
  In r (construct_index combined_df)
  <-> exists y, In y (map s_year combined_df)
                /\ r = index_row (y, rows_of s_year y combined_df).
Proof.
  unfold construct_index. rewrite sort_In, in_map_iff. split.
  - intros [[k g] [<- Hin]]. exists k.
    apply group_by_rows in Hin. destruct Hin as [-> Hk]. now split.
  - intros [y [Hy ->]].
    apply group_by_keys in Hy. apply in_map_iff in Hy.
    destruct Hy as [[k g] [Hk Hin]]. simpl in Hk. subst k.
    exists (y, g). split; [| exact Hin].
    apply group_by_rows in Hin. destruct Hin as [-> _]. reflexivity.
Qed.

Lemma construct_index_years (combined_df : list StatRow) :
  Permutation (map s_year (construct_index combined_df))
              (map fst (group_by s_year combined_df)).
Proof.
  unfold construct_index.
  eapply perm_trans; [apply sort_map_perm |].
  rewrite map_map. apply Permutation_refl.
Qed.

Lemma construct_index_NoDup (combined_df : list StatRow) :
  NoDup (map s_year (construct_index combined_df)).
Proof.
  eapply Permutation_NoDup;
    [apply Permutation_sym, construct_index_years | apply group_by_NoDup].
Qed.

Lemma rows_of_nonempty (A : Type) (key : A -> Z) (k : Z) (df : list A) :
  In k (map key df) -> rows_of key k df <> [].
Proof.
  intros Hk E. apply in_map_iff in Hk. destruct Hk as [x [Hx Hin]].
  assert (H : In x (rows_of key k df)) by (apply rows_of_In; now split).
  rewrite E in H. destruct H.
Qed.

Lemma pl_mean_all_defined (xs : list R) :
  xs <> [] -> pl_mean (map Some xs) = Some (sum xs / INR (length xs))%R.
Proof.
  intros H. unfold pl_mean. rewrite drop_nulls_all_defined.
  destruct xs; [contradiction | reflexivity].
Qed.

(** C3. The index has exactly one row for every year of the combined frame
    and no other row.  Its ticker is "INDEX"; its annualized_log_returns and
    annualized_std are the means of these columns over the rows of the
    combined frame that carry its year, and of no other row: when all of these
    rows have a value, the mean is their sum divided by their number. *)
Theorem index_row_per_year (combined_df : list StatRow) :
  let index_df := construct_index combined_df in
  NoDup (map s_year index_df)
  /\ (forall y, In y (map s_year index_df) <-> In y (map s_year combined_df))
  /\ (forall r,
         In r index_df ->
         let rows := rows_of s_year (s_year r) combined_df in
         rows <> []
         /\ s_ticker r = "INDEX"%string
         /\ annualized_log_returns r = pl_mean (map annualized_log_returns rows)
         /\ annualized_std r = pl_mean (map annualized_std rows)
         /\ (forall xs,
                map annualized_log_returns rows = map Some xs ->
                annualized_log_returns r
                = Some (sum xs / INR (length rows))%R)
         /\ (forall xs,
                map annualized_std rows = map Some xs ->
                annualized_std r = Some (sum xs / INR (length rows))%R)).
Proof.
  intros index_df. split; [apply construct_index_NoDup |]. split.
  - intros y. unfold index_df.
    rewrite <- (group_by_keys s_year combined_df y). split; apply Permutation_in;
      [| apply Permutation_sym]; apply construct_index_years.
  - intros r Hr rows. apply construct_index_In in Hr.
    destruct Hr as [y [Hy Hr]].
    assert (Hrows : rows = rows_of s_year y combined_df)
      by (unfold rows; rewrite Hr; reflexivity).
    assert (Hne : rows <> [])
      by (rewrite Hrows; now apply rows_of_nonempty).
    assert (Hall : forall (col : StatRow -> option R) xs,
               map col rows = map Some xs ->
               pl_mean (map col rows) = Some (sum xs / INR (length rows))%R).
    { intros col xs E. rewrite E.
      assert (Hlen : length rows = length xs).
      { rewrite <- (length_map col rows), E. apply length_map. }
      rewrite Hlen. apply pl_mean_all_defined.
      intros ->. destruct rows; [contradiction | discriminate Hlen]. }
    split; [exact Hne |].
    rewrite Hrows in *. rewrite Hr. simpl.
    repeat split; intros xs E; now apply Hall.
Qed.

(** C8. Building the index of an index returns the same index. *)
Theorem construct_index_idempotent (combined_df : list StatRow) :
  construct_index (construct_index combined_df) = construct_index combined_df.
Proof.
  set (index_df := construct_index combined_df).
  assert (Hrows : Forall (fun r => index_row (s_year r, [r]) = r) index_df).
  { rewrite Forall_forall. intros r Hr. apply construct_index_In in Hr.
    destruct Hr as [y [_ ->]]. unfold index_row. simpl.
    now rewrite !pl_mean_single. }
  unfold construct_index at 1.
  rewrite group_by_distinct by apply construct_index_NoDup.
  rewrite map_map.
  replace (map (fun x => index_row (s_year x, [x])) index_df) with index_df.
  - apply sort_of_sorted. apply StronglySorted_Sorted.
    unfold index_df, construct_index.
    apply sort_sorted with (P := fun _ => True).
    + intros x y _ _. unfold year_leb. rewrite !Z.leb_le. lia.
    + intros x y z _ _ _. unfold year_leb. rewrite !Z.leb_le. lia.
    + rewrite Forall_forall. trivial.
  - clear -Hrows. induction Hrows as [| r l Hr _ IH]; simpl;
      [reflexivity | now rewrite Hr, <- IH].
Qed.

(** * Properties of concat_selected_tickers *)

(** C4. Whatever the provider delivers and whichever tickers are selected,
    the frame that concat_selected_tickers returns has no row of year 2025. *)
Theorem no_row_of_2025
        (history : string -> result (list RawRow)) (tickers : list string)
        (out : list StatRow) :
  concat_selected_tickers history tickers = Ok out ->
  Forall (fun r => s_year r <> 2025%Z) out.
Proof.
  unfold concat_selected_tickers. intros H.
  apply bind_Ok_inv in H. destruct H as [dfs [_ H]].
  apply bind_Ok_inv in H. destruct H as [all [_ H]].
  injection H as <-.
  rewrite Forall_forall. intros r Hr.
  apply filter_In in Hr. destruct Hr as [_ Hr].
  apply negb_true_iff, Z.eqb_neq in Hr. exact Hr.
Qed.

(** * Year boundaries *)

Lemma filter_none (A : Type) (f : A -> bool) (l : list A) :
  (forall x, In x l -> f x = false) -> filter f l = [].
Proof.
  induction l as [| x l IH]; simpl; intros H; [reflexivity |].
  rewrite (H x (or_introl eq_refl)). apply IH. intros z Hz. apply H. now right.
Qed.

Lemma returns_from_rows_length (p : option R) (df : list PriceRow) (y : Z) :
  length (rows_of (fun r => year (price r)) y (returns_from p df))
  = length (rows_of year y df).
Proof.
  rewrite <- (returns_from_price p df) at 2.
  unfold rows_of. rewrite filter_map_swap, length_map. reflexivity.
Qed.

(** The frame with log-returns, split at a row [cur] that follows [prev]. *)
Lemma with_log_returns_split (pre post : list PriceRow) (prev cur : PriceRow) :
  with_log_returns (pre ++ prev :: cur :: post)
  = returns_from None (pre ++ [prev])
      ++ {| price := cur;
            log_returns := np_log (null_div (close cur) (close prev)) |}
      :: returns_from (close cur) post.
Proof.
  rewrite with_log_returns_unfold.
  replace (pre ++ prev :: cur :: post) with ((pre ++ [prev]) ++ cur :: post)
    by (now rewrite <- app_assoc).
  rewrite returns_from_app, map_app. simpl map. now rewrite last_last.
Qed.

Lemma year_log_returns_first_of_year
      (pre post : list PriceRow) (prev cur : PriceRow) :
  (forall x, In x (pre ++ [prev]) -> year x <> year cur) ->
  year_log_returns (pre ++ prev :: cur :: post) (year cur)
  = np_log (null_div (close cur) (close prev))
      :: map log_returns
           (rows_of (fun r => year (price r)) (year cur)
                    (returns_from (close cur) post)).
Proof.
  intros Hfirst. unfold year_log_returns.
  rewrite with_log_returns_split, filter_app.
  rewrite filter_none.
  - simpl. now rewrite Z.eqb_refl.
  - intros x Hx. apply Z.eqb_neq, Hfirst.
    rewrite <- (returns_from_price None (pre ++ [prev])).
    now apply in_map.
Qed.

(** C10. Let [cur] be the first row of its calendar year and [prev] the row
    immediately above it, both with a close price.  The log-return of [cur]
    is defined: it is ln (close cur / close prev), where [prev] belongs to
    another year (in a frame ordered by year, [prev] is the last row of the
    latest earlier year).  This log-return is the first cell of the column
    that the new year's group aggregates, so it is counted in that year's
    count, mean and standard deviation in the [yearly] frame. *)
Theorem log_return_crosses_year_boundary
        (pre post : list PriceRow) (prev cur : PriceRow) (a b : R) (tk : string) :
  let df_pl := pre ++ prev :: cur :: post in
  let y := year cur in
  (forall x, In x (pre ++ [prev]) -> year x <> y) ->
  close cur = Some a ->
  close prev = Some b ->
  nth_error (with_log_returns df_pl) (S (length pre))
  = Some {| price := cur; log_returns := Some (ln (a / b)) |}
  /\ year prev <> y
  /\ (StronglySorted Z.le (map year df_pl) ->
      (year prev < y)%Z
      /\ (forall x, In x pre -> (year x <= year prev)%Z)
      /\ (forall x, In x (cur :: post) -> (year prev < year x)%Z))
  /\ In (yearly_of tk df_pl y) (yearly_frame tk (with_log_returns df_pl))
  /\ exists rest,
      length rest = length (rows_of year y post)
      /\ year_log_returns df_pl y = Some (ln (a / b)) :: rest
      /\ count (yearly_of tk df_pl y) = S (pl_count rest)
      /\ yearly_log_returns (yearly_of tk df_pl y)
         = Some (mean_of (ln (a / b) :: drop_nulls rest))
      /\ yearly_std (yearly_of tk df_pl y)
         = if (pl_count rest =? 0)%nat then None
           else Some (sample_std (ln (a / b) :: drop_nulls rest)).
Proof.
  intros df_pl y Hfirst Ha Hb.
  assert (Hprev : year prev <> y).
  { apply Hfirst. apply in_or_app. right. now left. }
  split; [| split; [exact Hprev | split; [| split]]].
  - unfold df_pl. rewrite with_log_returns_split.
    rewrite nth_error_app2;
      rewrite returns_from_length, length_app; cbn [length]; [| lia].
    replace (S (length pre) - (length pre + 1))%nat with 0%nat by lia.
    simpl. now rewrite Ha, Hb.
  - intros Hs. unfold df_pl in Hs.
    rewrite map_app in Hs. simpl in Hs.
    assert (Hle : forall x, In x pre -> (year x <= year prev)%Z).
    { intros x Hx. clear -Hs Hx.
      induction pre as [| z pre IH]; [destruct Hx |].
      simpl in Hs. inversion Hs as [| ? ? Hs' Hall]; subst.
      destruct Hx as [-> | Hx]; [| now apply IH].
      rewrite Forall_forall in Hall. apply Hall.
      apply in_or_app. right. now left. }
    assert (Htail : StronglySorted Z.le (year prev :: year cur :: map year post)).
    { clear -Hs. induction pre as [| z pre IH]; [exact Hs |].
      simpl in Hs. inversion Hs; subst. now apply IH. }
    inversion Htail as [| ? ? Hs1 Hall1]; subst.
    inversion Hs1 as [| ? ? Hs2 Hall2]; subst.
    rewrite Forall_forall in Hall1, Hall2.
    assert (Hlt : (year prev < y)%Z).
    { specialize (Hall1 (year cur) (or_introl eq_refl)). unfold y in *. lia. }
    split; [exact Hlt |]. split; [exact Hle |].
    intros x [<- | Hx]; [exact Hlt |].
    specialize (Hall2 (year x) (in_map year _ _ Hx)). unfold y in *. lia.
  - apply yearly_frame_In. exists y. split; [| reflexivity].
    unfold df_pl. rewrite map_app. apply in_or_app. right. simpl. auto.
  - exists (map log_returns
              (rows_of (fun r => year (price r)) y (returns_from (close cur) post))).
    assert (Hcol : year_log_returns df_pl y
                   = Some (ln (a / b))
                       :: map log_returns
                            (rows_of (fun r => year (price r)) y
                                     (returns_from (close cur) post))).
    { unfold df_pl, y. rewrite (year_log_returns_first_of_year _ _ _ _ Hfirst).
      now rewrite Ha, Hb. }
    split; [now rewrite length_map, returns_from_rows_length |].
    split; [exact Hcol |].
    unfold yearly_of. cbn [count yearly_log_returns yearly_std].
    rewrite Hcol. unfold pl_count, pl_mean, pl_std.
    cbn [drop_nulls flat_map app length].
    split; [reflexivity |]. split; [reflexivity |].
    fold (drop_nulls (map log_returns
              (rows_of (fun r => year (price r)) y (returns_from (close cur) post)))).
    destruct (drop_nulls _); reflexivity.
Qed.

(** * A two-point series *)

Lemma calculate_returns_and_std_two_point (tk : string) (y : Z) (d1 d2 : Date) :
  calculate_returns_and_std (two_point_series tk y d1 d2)
  = Ok [ {| s_ticker := tk; s_year := y;
            annualized_log_returns := Some (exp (52 * ln 1.1) - 1)%R;
            annualized_std := None |} ].
Proof.
  assert (E : (110 / 100 = 1.1)%R) by lra.
  unfold two_point_series.
  rewrite calculate_returns_and_std_cons, with_log_returns_unfold.
  unfold yearly_frame, group_by. simpl. rewrite Z.eqb_refl. simpl.
  unfold annualize, yearly_row, pl_mean, pl_std.
  cbn [y_ticker y_year yearly_log_returns yearly_std fst snd map log_returns
       drop_nulls flat_map app length Nat.leb option_map].
  now rewrite mean_of_single, E, (Rmult_comm _ 52).
Qed.

(** C7 (amended). For a two-point weekly series with closes 100 and 110 in
    one calendar year, the only defined log-return is ln 1.1; the year has a
    single observation, so its annualized_std is null, while its annualised
    return is defined and equals exp (52 * ln 1.1) - 1. *)
Theorem two_point_series_statistics (tk : string) (y : Z) (d1 d2 : Date) :
  map log_returns (with_log_returns (two_point_series tk y d1 d2))
  = [None; Some (ln 1.1)]
  /\ year_log_returns (two_point_series tk y d1 d2) y = [None; Some (ln 1.1)]
  /\ pl_count (year_log_returns (two_point_series tk y d1 d2) y) = 1%nat
  /\ calculate_returns_and_std (two_point_series tk y d1 d2)
     = Ok [ {| s_ticker := tk; s_year := y;
               annualized_log_returns := Some (exp (52 * ln 1.1) - 1)%R;
               annualized_std := None |} ].
Proof.
  assert (E : (110 / 100 = 1.1)%R) by lra.
  assert (Hcol : year_log_returns (two_point_series tk y d1 d2) y
                 = [None; Some (ln 1.1)]).
  { unfold year_log_returns, two_point_series.
    rewrite with_log_returns_unfold. simpl.
    rewrite Z.eqb_refl. simpl. now rewrite E. }
  split; [| split; [exact Hcol | split]].
  - unfold two_point_series. rewrite with_log_returns_unfold. simpl.
    now rewrite E.
  - now rewrite Hcol.
  - apply calculate_returns_and_std_two_point.
Qed.

(** The annualised return of the single-observation year of the two-point
    series is a number, not a null. *)
Lemma two_point_annualized_return_is_defined :
  exists s,
    calculate_returns_and_std two_point_example = Ok [s]
    /\ annualized_log_returns s <> None
    /\ annualized_std s = None.
Proof.
  eexists. split; [apply calculate_returns_and_std_two_point |].
  split; [discriminate | reflexivity].
Qed.

(** * Worked examples *)

Lemma log_return_of_consecutive_closes_witness :
  nth_error demo_prices 1 = Some (week 2023 12 25 110)
  /\ nth_error demo_prices 2 = Some (week 2024 1 1 121)
  /\ nth_error (with_log_returns demo_prices) 2
     = Some {| price := week 2024 1 1 121;
               log_returns := Some (ln (121 / 110)) |}.
Proof.
  split; [reflexivity |]. split; [reflexivity |].
  exact (proj2 (proj2 (proj2 (log_return_of_consecutive_closes demo_prices))
                      1%nat (week 2023 12 25 110) (week 2024 1 1 121)
                      eq_refl eq_refl)
               121%R 110%R eq_refl eq_refl).
Defined.

Lemma annualized_statistics_of_a_year_witness :
  calculate_returns_and_std demo_prices = Ok demo_stats
  /\ In 2024%Z (map year demo_prices)
  /\ exists s,
      In s demo_stats /\ s_year s = 2024%Z
      /\ annualized_std s
         = Some (sample_std [ln (121 / 110); ln (110 / 121); ln (121 / 110)]
                 * sqrt 52)%R
      /\ annualized_log_returns s
         = Some (exp (52 * mean_of [ln (121 / 110); ln (110 / 121);
                                    ln (121 / 110)]) - 1)%R.
Proof.
  assert (H1 : calculate_returns_and_std demo_prices = Ok demo_stats)
    by reflexivity.
  assert (H2 : In 2024%Z (map year demo_prices))
    by (simpl; auto).
  split; [exact H1 |]. split; [exact H2 |].
  destruct (annualized_statistics_of_a_year demo_prices 2024 H1 H2)
    as [s (Hin & Hy & _ & _ & _ & Hstd & Hret)].
  exists s. split; [exact Hin |]. split; [exact Hy |]. split.
  - apply Hstd. run_frame. lia.
  - apply Hret. run_frame. lia.
Defined.

Lemma short_year_has_null_std_witness :
  In 2023%Z (map year demo_prices)
  /\ (pl_count (year_log_returns demo_prices 2023) < 2)%nat
  /\ pl_std (year_log_returns demo_prices 2023) = None
  /\ exists out s,
      calculate_returns_and_std demo_prices = Ok out
      /\ In s out /\ s_year s = 2023%Z
      /\ (forall s', In s' out -> s_year s' = 2023%Z -> s' = s)
      /\ annualized_std s = None.
Proof.
  assert (H1 : In 2023%Z (map year demo_prices)) by (simpl; auto).
  assert (H2 : (pl_count (year_log_returns demo_prices 2023) < 2)%nat)
    by (run_frame; lia).
  split; [exact H1 |]. split; [exact H2 |].
  exact (short_year_has_null_std demo_prices 2023 H1 H2).
Defined.

Lemma outputs_are_sorted_witness :
  calculate_returns_and_std demo_prices = Ok demo_stats
  /\ StronglySorted ticker_year_le demo_stats
  /\ StronglySorted year_le (construct_index demo_stats).
Proof.
  split; [reflexivity |].
  exact (outputs_are_sorted demo_prices demo_stats eq_refl).
Defined.

Lemma index_row_per_year_witness :
  In demo_index_2024 (construct_index demo_combined)
  /\ annualized_log_returns demo_index_2024
     = Some (sum [0.3; 0.5] / INR 2)%R
  /\ annualized_std demo_index_2024 = pl_mean [None; Some 0.4%R].
Proof.
  assert (H : In demo_index_2024 (construct_index demo_combined))
    by (right; left; reflexivity).
  split; [exact H |].
  destruct (proj2 (proj2 (index_row_per_year demo_combined)) demo_index_2024 H)
    as (_ & _ & _ & Hstd & Hall & _).
  split; [| exact Hstd].
  exact (Hall [0.3%R; 0.5%R] eq_refl).
Defined.

Lemma no_row_of_2025_witness :
  concat_selected_tickers demo_history [TSLA] = Ok demo_selected
  /\ map s_year demo_selected = [2024%Z]
  /\ Forall (fun r => s_year r <> 2025%Z) demo_selected.
Proof.
  split; [reflexivity |]. split; [reflexivity |].
  exact (no_row_of_2025 demo_history [TSLA] eq_refl).
Defined.

Lemma log_return_crosses_year_boundary_witness :
  nth_error (with_log_returns demo_prices) 2
  = Some {| price := week 2024 1 1 121; log_returns := Some (ln (121 / 110)) |}
  /\ year (week 2023 12 25 110) <> 2024%Z
  /\ In (yearly_of TSLA demo_prices 2024)
        (yearly_frame TSLA (with_log_returns demo_prices))
  /\ exists rest,
      length rest = 2%nat
      /\ year_log_returns demo_prices 2024 = Some (ln (121 / 110)) :: rest
      /\ count (yearly_of TSLA demo_prices 2024) = S (pl_count rest).
Proof.
  assert (Hfirst : forall x,
             In x ([week 2023 12 18 100] ++ [week 2023 12 25 110]) ->
             year x <> year (week 2024 1 1 121)).
  { intros x [<- | [<- | []]]; simpl; lia. }
  destruct (log_return_crosses_year_boundary
              [week 2023 12 18 100] [week 2024 1 8 110; week 2024 1 15 121]
              (week 2023 12 25 110) (week 2024 1 1 121) TSLA
              Hfirst eq_refl eq_refl)
    as (Hnth & Hprev & _ & Hin & rest & Hlen & Hcol & Hcount & _).
  split; [exact Hnth |]. split; [exact Hprev |]. split; [exact Hin |].
  exists rest. split; [exact Hlen |]. split; [exact Hcol | exact Hcount].
Defined.

(** * Further facts *)

(** concat_selected_tickers returns as soon as one ticker is selected and the
    provider delivers at least one row for every selected ticker. *)
Lemma ticker_loop_returns
      (history : string -> result (list RawRow)) (tickers : list string)
      (acc : list (list StatRow)) :
  (forall tk, In tk tickers ->
              exists raw, history tk = Ok raw /\ raw <> []) ->
  exists dfs,
    ticker_loop history tickers acc = Ok (acc ++ dfs)
    /\ length dfs = length tickers.
Proof.
  revert acc; induction tickers as [| tk rest IH]; intros acc H; simpl.
  - exists []. now rewrite app_nil_r.
  - destruct (H tk (or_introl eq_refl)) as [raw [-> Hraw]]. simpl.
    destruct raw as [| r raw]; [contradiction |].
    cbn [clean_historical_data map].
    rewrite calculate_returns_and_std_cons. simpl bind.
    match goal with
    | |- context [ticker_loop _ _ (acc ++ [?o])] => set (df := o)
    end.
    destruct (IH (acc ++ [df])) as [dfs [Hloop Hlen]].
    + intros tk' Hin. apply H. now right.
    + exists (df :: dfs). rewrite Hloop, <- app_assoc. simpl.
      split; [reflexivity | now rewrite Hlen].
Qed.

Lemma concat_selected_tickers_returns
      (history : string -> result (list RawRow)) (tickers : list string) :
  tickers <> [] ->
  (forall tk, In tk tickers ->
              exists raw, history tk = Ok raw /\ raw <> []) ->
  exists out, concat_selected_tickers history tickers = Ok out.
Proof.
  intros Hne H. unfold concat_selected_tickers.
  destruct (ticker_loop_returns history tickers [] H) as [dfs [-> Hlen]].
  simpl. destruct dfs as [| df dfs].
  - destruct tickers; [contradiction | discriminate Hlen].
  - simpl. eauto.
Qed.

Lemma concat_selected_tickers_nil (history : string -> result (list RawRow)) :
  concat_selected_tickers history [] = Raise ValueError.
Proof. reflexivity. Qed.

(** The order in which [group_by] delivers its groups does not show in the
    results: a sorted frame is determined by its rows when no two of them
    compare equal. *)
Lemma sorted_perm_unique (A : Type) (le : A -> A -> Prop) (l1 l2 : list A) :
  (forall a b, In a l1 -> In b l1 -> le a b -> le b a -> a = b) ->
  StronglySorted le l1 -> StronglySorted le l2 ->
  Permutation l1 l2 -> l1 = l2.
Proof.
  revert l2; induction l1 as [| a l1 IH]; intros l2 Hanti Hs1 Hs2 Hp.
  - apply Permutation_nil in Hp. now subst.
  - destruct l2 as [| b l2].
    + apply Permutation_sym, Permutation_nil in Hp. discriminate Hp.
    + inversion Hs1 as [| ? ? Hs1' Ha]; subst.
      inversion Hs2 as [| ? ? Hs2' Hb]; subst.
      rewrite Forall_forall in Ha, Hb.
      assert (Hab : a = b).
      { assert (Hin_a : In a (b :: l2))
          by (apply (Permutation_in _ Hp); now left).
        assert (Hin_b : In b (a :: l1))
          by (apply (Permutation_in _ (Permutation_sym Hp)); now left).
        destruct Hin_a as [-> | Hin_a]; [reflexivity |].
        destruct Hin_b as [-> | Hin_b]; [reflexivity |].
        apply Hanti; [now left | now right | now apply Ha | now apply Hb]. }
      subst b. f_equal.
      apply IH; [| assumption | assumption | now apply Permutation_cons_inv in Hp].
      intros x y Hx Hy. apply Hanti; now right.
Qed.

Lemma NoDup_map_inj_on (A B : Type) (f : A -> B) (l : list A) (a b : A) :
  NoDup (map f l) -> In a l -> In b l -> f a = f b -> a = b.
Proof.
  induction l as [| x l IH]; simpl; intros Hnd Ha Hb E; [destruct Ha |].
  inversion Hnd as [| ? ? Hnotin Hnd']; subst.
  destruct Ha as [-> | Ha], Hb as [-> | Hb]; auto.
  - exfalso. apply Hnotin. rewrite E. now apply in_map.
  - exfalso. apply Hnotin. rewrite <- E. now apply in_map.
Qed.

Lemma construct_index_any_group_order
      (combined_df : list StatRow) (groups : list (Z * list StatRow)) :
  Permutation groups (group_by s_year combined_df) ->
  sort year_leb (map index_row groups) = construct_index combined_df.
Proof.
  intros Hp. apply sorted_perm_unique with (le := year_le).
  - intros a b Ha Hb Hab Hba.
    assert (Hnd : NoDup (map s_year (sort year_leb (map index_row groups)))).
    { eapply Permutation_NoDup; [| apply (construct_index_NoDup combined_df)].
      apply Permutation_map. unfold construct_index.
      eapply perm_trans; [apply sort_perm |].
      eapply perm_trans; [| apply Permutation_sym, sort_perm].
      apply Permutation_map, Permutation_sym, Hp. }
    apply (NoDup_map_inj_on s_year _ _ _ Hnd Ha Hb).
    unfold year_le in *. lia.
  - apply sort_year_sorted.
  - apply sort_year_sorted.
  - unfold construct_index.
    eapply perm_trans; [apply sort_perm |].
    eapply perm_trans; [| apply Permutation_sym, sort_perm].
    apply Permutation_map, Hp.
Qed.

Lemma ticker_year_le_antisym (a b : StatRow) :
  ticker_year_le a b -> ticker_year_le b a -> s_year a = s_year b.
Proof.
  unfold ticker_year_le, String.ltb.
  intros [Hab | [Eab Hab]] [Hba | [Eba Hba]].
  - rewrite String.compare_antisym in Hba.
    destruct (String.compare (s_ticker a) (s_ticker b)); discriminate.
  - rewrite Eba, string_compare_refl in Hab. discriminate.
  - rewrite Eab, string_compare_refl in Hba. discriminate.
  - lia.
Qed.

Lemma calculate_returns_and_std_any_group_order
      (tk : string) (df : list ReturnRow) (groups : list (Z * list ReturnRow)) :
  Permutation groups (group_by (fun r => year (price r)) df) ->
  sort ticker_year_leb (map annualize (map (yearly_row tk) groups))
  = sort ticker_year_leb (map annualize (yearly_frame tk df)).
Proof.
  intros Hp.
  assert (Hperm : Permutation
                    (sort ticker_year_leb (map annualize (map (yearly_row tk) groups)))
                    (sort ticker_year_leb (map annualize (yearly_frame tk df)))).
  { eapply perm_trans; [apply sort_perm |].
    eapply perm_trans; [| apply Permutation_sym, sort_perm].
    unfold yearly_frame. now do 2 apply Permutation_map. }
  assert (Htk : Forall (fun s => s_ticker s = tk)
                       (map annualize (map (yearly_row tk) groups))).
  { rewrite Forall_forall. intros s Hs.
    apply in_map_iff in Hs. destruct Hs as [yr [<- Hyr]].
    apply in_map_iff in Hyr. destruct Hyr as [kg [<- _]]. reflexivity. }
  apply sorted_perm_unique with (le := ticker_year_le).
  - intros a b Ha Hb Hab Hba.
    assert (Hnd : NoDup (map s_year
                   (sort ticker_year_leb
                         (map annualize (map (yearly_row tk) groups))))).
    { eapply Permutation_NoDup.
      - apply Permutation_map, Permutation_sym, Hperm.
      - eapply Permutation_NoDup; [apply Permutation_sym, sort_map_perm |].
        rewrite map_map.
        change (fun x => s_year (annualize x)) with y_year.
        rewrite yearly_frame_years. apply group_by_NoDup. }
    apply (NoDup_map_inj_on s_year _ _ _ Hnd Ha Hb).
    now apply ticker_year_le_antisym.
  - now apply sort_ticker_year_sorted with (tk := tk).
  - apply sort_ticker_year_sorted with (tk := tk), annualized_rows_ticker.
  - exact Hperm.
Qed.

(** * Further properties of calculate_returns_and_std *)

Lemma calculate_returns_and_std_label (r : PriceRow) (rest : list PriceRow)
      (out : list StatRow) :
  calculate_returns_and_std (r :: rest) = Ok out ->
  Forall (fun s => s_ticker s = ticker r) out.
Proof.
  rewrite calculate_returns_and_std_cons. intros H. injection H as <-.
  rewrite Forall_forall. intros s Hs. apply sort_In in Hs.
  pose proof (annualized_rows_ticker (ticker r) (with_log_returns (r :: rest)))
    as Hall.
  rewrite Forall_forall in Hall. now apply Hall.
Qed.

Lemma calculate_returns_and_std_year_set (df_pl : list PriceRow)
      (out : list StatRow) (y : Z) :
  calculate_returns_and_std df_pl = Ok out ->
  (In y (map s_year out) <-> In y (map year df_pl)).
Proof.
  intros H. destruct (calculate_returns_and_std_In _ H) as [tk Hin].
  rewrite in_map_iff. split.
  - intros [s [<- Hs]]. apply Hin in Hs. destruct Hs as [y' [Hy' ->]].
    exact Hy'.
  - intros Hy. exists (annualize (yearly_of tk df_pl y)).
    split; [reflexivity |]. apply Hin. now exists y.
Qed.

(** X1. Whatever tickers the rows of the frame carry, every row of the
    result is labelled with the ticker of the first row of the frame, and
    the years of the result are exactly the years of the frame: the grouping
    is by year alone. *)
Theorem result_is_labelled_by_first_ticker (r : PriceRow) (rest : list PriceRow) :
  exists out,
    calculate_returns_and_std (r :: rest) = Ok out
    /\ Forall (fun s => s_ticker s = ticker r) out
    /\ NoDup (map s_year out)
    /\ (forall y, In y (map s_year out) <-> In y (map year (r :: rest))).
Proof.
  pose proof (calculate_returns_and_std_cons r rest) as H.
  set (out := sort _ _) in H. exists out.
  split; [exact H |].
  split; [now apply calculate_returns_and_std_label with (rest := rest) |].
  split; [now apply (calculate_returns_and_std_years _ H) |].
  intros y. now apply calculate_returns_and_std_year_set.
Qed.




















(** ** What the result depends on *)

Lemma add_to_group_map (A B : Type) (keyA : A -> Z) (keyB : B -> Z) (f : A -> B)
      (x : A) (groups : list (Z * list A)) :
  (forall a, keyB (f a) = keyA a) ->
  add_to_group keyB (f x) (map (fun kg => (fst kg, map f (snd kg))) groups)
  = map (fun kg => (fst kg, map f (snd kg))) (add_to_group keyA x groups).
Proof.
  intros Hkey. induction groups as [| [k g] rest IH]; simpl.
  - now rewrite Hkey.
  - rewrite Hkey. destruct (k =? keyA x)%Z; simpl.
    + now rewrite map_app.
    + now rewrite IH.
Qed.

(** Grouping commutes with a change of rows that keeps the keys. *)
Lemma group_by_map (A B : Type) (keyA : A -> Z) (keyB : B -> Z) (f : A -> B)
      (df : list A) :
  (forall a, keyB (f a) = keyA a) ->
  group_by keyB (map f df)
  = map (fun kg => (fst kg, map f (snd kg))) (group_by keyA df).
Proof.
  intros Hkey. unfold group_by.
  change (@nil (Z * list B))
    with (map (fun kg : Z * list A => (fst kg, map f (snd kg))) []).
  generalize (@nil (Z * list A)).
  induction df as [| x df IH]; intros groups; simpl.
  - reflexivity.
  - rewrite add_to_group_map with (keyA := keyA) by exact Hkey. apply IH.
Qed.

Lemma returns_from_cells (p : option R) (df : list PriceRow) :
  map (fun r => (year (price r), log_returns r)) (returns_from p df)
  = year_cells p (map (fun r => (year r, close r)) df).
Proof.
  revert p; induction df as [| r df IH]; intros p; simpl;
    [reflexivity | now rewrite IH].
Qed.

Lemma yearly_frame_cells (tk : string) (df_pl : list PriceRow) :
  yearly_frame tk (with_log_returns df_pl)
  = map (cell_row tk)
        (group_by fst
                  (year_cells None (map (fun r => (year r, close r)) df_pl))).
Proof.
  rewrite <- returns_from_cells, <- with_log_returns_unfold.
  rewrite group_by_map with (keyA := fun r => year (price r))
    by reflexivity.
  unfold yearly_frame. rewrite map_map. apply map_ext.
  intros [k g]. unfold cell_row, yearly_row. simpl.
  now rewrite map_map.
Qed.

(** The result as a function of the first ticker and the (year, close)
    cells. *)
Lemma calculate_returns_and_std_cells (df_pl : list PriceRow) :
  calculate_returns_and_std df_pl
  = match hd_error df_pl with
    | None => Raise IndexError
    | Some r =>
        Ok (sort ticker_year_leb
              (map annualize
                   (map (cell_row (ticker r))
                        (group_by fst
                           (year_cells None
                              (map (fun r => (year r, close r)) df_pl))))))
    end.
Proof.
  destruct df_pl as [| r rest]; [reflexivity |].
  rewrite calculate_returns_and_std_cons, yearly_frame_cells. reflexivity.
Qed.

(** X6. The result is determined by the ticker of the first row and by the
    year and close columns: the dates and the tickers of the other rows are
    never read, and nothing puts the rows in date order. *)
Theorem result_depends_on_years_and_closes (df1 df2 : list PriceRow) :
  map (fun r => (year r, close r)) df1 = map (fun r => (year r, close r)) df2 ->
  option_map ticker (hd_error df1) = option_map ticker (hd_error df2) ->
  calculate_returns_and_std df1 = calculate_returns_and_std df2.
Proof.
  intros Hcells Hhd. rewrite !calculate_returns_and_std_cells, Hcells.
  destruct (hd_error df1) as [r1 |], (hd_error df2) as [r2 |];
    simpl in Hhd; try discriminate Hhd; [| reflexivity].
  injection Hhd as ->. reflexivity.
Qed.



Lemma result_depends_on_years_and_closes_witness :
  map (fun r => (year r, close r)) demo_prices
  = map (fun r => (year r, close r)) demo_prices_undated
  /\ map date demo_prices <> map date demo_prices_undated
  /\ calculate_returns_and_std demo_prices
     = calculate_returns_and_std demo_prices_undated.
Proof.
  split; [reflexivity |]. split; [discriminate |].
  exact (@result_depends_on_years_and_closes demo_prices demo_prices_undated
                                             eq_refl eq_refl).
Defined.


(** * Further properties of construct_index *)

Lemma index_row_single (r : StatRow) :
  index_row (s_year r, [r]) = relabel_index r.
Proof. unfold index_row, relabel_index. simpl. now rewrite !pl_mean_single. Qed.

Lemma construct_index_distinct (combined_df : list StatRow) :
  NoDup (map s_year combined_df) ->
  construct_index combined_df = sort year_leb (map relabel_index combined_df).
Proof.
  intros Hnd. unfold construct_index.
  rewrite (group_by_distinct s_year combined_df Hnd), map_map.
  f_equal. apply map_ext. intros r. apply index_row_single.
Qed.

(** X8. On a frame whose years are pairwise distinct the index is the frame
    itself, relabelled "INDEX" and put in order of year: a mean over one row
    is the row's value, null included. *)
Theorem index_of_distinct_years (combined_df : list StatRow) :
  NoDup (map s_year combined_df) ->
  construct_index combined_df = sort year_leb (map relabel_index combined_df).
Proof. apply construct_index_distinct. Qed.

Lemma same_ticker_sorted_by_year (tk : string) (l : list StatRow) :
  Forall (fun s => s_ticker s = tk) l ->
  StronglySorted ticker_year_le l -> StronglySorted year_le l.
Proof.
  intros Htk. apply StronglySorted_impl. intros a b Ha Hb.
  rewrite Forall_forall in Htk.
  unfold ticker_year_le, year_le, String.ltb.
  rewrite (Htk a Ha), (Htk b Hb), string_compare_refl.
  intros [H | [_ H]]; [discriminate H | exact H].
Qed.

(** X9. The index of the statistics of a single ticker, as
    calculate_returns_and_std returns them, is these statistics row by row
    with the ticker replaced by "INDEX". *)
Theorem index_of_one_ticker (df_pl : list PriceRow) (out : list StatRow) :
  calculate_returns_and_std df_pl = Ok out ->
  construct_index out = map relabel_index out.
Proof.
  intros H.
  rewrite construct_index_distinct
    by apply (calculate_returns_and_std_years _ H).
  apply sort_of_sorted, StronglySorted_Sorted.
  apply StronglySorted_map with (R := fun a b => year_leb a b = true).
  destruct df_pl as [| r rest];
    [rewrite calculate_returns_and_std_nil in H; discriminate H |].
  pose proof (calculate_returns_and_std_label H) as Htk.
  destruct (calculate_returns_and_std_Ok _ H) as [tk' Hout].
  assert (Hs : StronglySorted ticker_year_le out).
  { rewrite Hout. apply sort_ticker_year_sorted with (tk := tk').
    apply annualized_rows_ticker. }
  apply (same_ticker_sorted_by_year Htk) in Hs.
  revert Hs. apply StronglySorted_impl. intros a b _ _.
  unfold year_le, year_leb. simpl. apply Z.leb_le.
Qed.

Lemma index_of_one_ticker_witness :
  calculate_returns_and_std demo_prices = Ok demo_stats
  /\ construct_index demo_stats = map relabel_index demo_stats.
Proof.
  split; [reflexivity |].
  exact (@index_of_one_ticker demo_prices demo_stats eq_refl).
Defined.

Lemma pl_mean_pair (a b : option R) : pl_mean [a; b] = pair_mean a b.
Proof.
  destruct a as [x |], b as [y |]; unfold pl_mean, pair_mean; simpl;
    try reflexivity.
  - f_equal. unfold mean_of. simpl. field.
  - now rewrite mean_of_single.
  - now rewrite mean_of_single.
Qed.

(** X10. When exactly two rows of the combined frame carry year [y], the
    index row of [y] holds, in each column, half the sum of their two values;
    a null value is left out of the mean and not counted as zero, so beside a
    null the other value stands alone. *)
Theorem index_of_two_tickers
        (combined_df : list StatRow) (y : Z) (r1 r2 : StatRow) :
  rows_of s_year y combined_df = [r1; r2] ->
  exists r,
    In r (construct_index combined_df)
    /\ s_ticker r = "INDEX"%string /\ s_year r = y
    /\ annualized_log_returns r
       = pair_mean (annualized_log_returns r1) (annualized_log_returns r2)
    /\ annualized_std r = pair_mean (annualized_std r1) (annualized_std r2).
Proof.
  intros Hrows.
  exists (index_row (y, rows_of s_year y combined_df)). split.
  - apply construct_index_In. exists y. split; [| reflexivity].
    assert (H1 : In r1 (rows_of s_year y combined_df))
      by (rewrite Hrows; now left).
    apply rows_of_In in H1. destruct H1 as [H1 <-]. now apply in_map.
  - rewrite Hrows. unfold index_row. simpl.
    now rewrite !pl_mean_pair.
Qed.

Lemma index_of_two_tickers_witness :
  exists r,
    In r (construct_index demo_combined)
    /\ s_ticker r = "INDEX"%string /\ s_year r = 2024%Z
    /\ annualized_log_returns r = Some ((0.3 + 0.5) / 2)%R
    /\ annualized_std r = Some 0.4%R.
Proof.
  exact (@index_of_two_tickers demo_combined 2024%Z
           (nth 1 demo_combined demo_index_2024)
           (nth 2 demo_combined demo_index_2024) eq_refl).
Defined.

Lemma index_of_distinct_years_witness :
  NoDup (map s_year [nth 1 demo_combined demo_index_2024;
                     nth 0 demo_combined demo_index_2024])
  /\ map s_year (construct_index [nth 1 demo_combined demo_index_2024;
                                  nth 0 demo_combined demo_index_2024])
     = [2023%Z; 2024%Z].
Proof.
  assert (H : NoDup (map s_year [nth 1 demo_combined demo_index_2024;
                                 nth 0 demo_combined demo_index_2024])).
  { simpl. constructor; [| constructor; [| constructor]]; simpl; intuition lia. }
  split; [exact H |].
  rewrite (index_of_distinct_years _ H). reflexivity.
Defined.

(** * Further properties of concat_selected_tickers *)

Lemma ticker_loop_blocks
      (history : string -> result (list RawRow)) (tickers : list string)
      (acc dfs : list (list StatRow)) :
  ticker_loop history tickers acc = Ok dfs ->
  exists blocks,
    dfs = acc ++ blocks
    /\ Forall2 (fun tk block => ticker_stats history tk = Ok block)
               tickers blocks.
Proof.
  revert acc; induction tickers as [| tk rest IH]; intros acc H; simpl in H.
  - injection H as <-. exists []. split; [now rewrite app_nil_r | constructor].
  - apply bind_Ok_inv in H. destruct H as [raw [Hraw H]].
    apply bind_Ok_inv in H. destruct H as [block [Hblock H]].
    destruct (IH _ H) as [blocks [-> Hall]].
    exists (block :: blocks). split; [now rewrite <- app_assoc |].
    constructor; [| exact Hall].
    unfold ticker_stats. rewrite Hraw. exact Hblock.
Qed.

Lemma ticker_loop_of_blocks
      (history : string -> result (list RawRow)) (tickers : list string)
      (acc blocks : list (list StatRow)) :
  Forall2 (fun tk block => ticker_stats history tk = Ok block) tickers blocks ->
  ticker_loop history tickers acc = Ok (acc ++ blocks).
Proof.
  intros H. revert acc. induction H as [| tk block tks bs Hb _ IH]; intros acc.
  - simpl. now rewrite app_nil_r.
  - simpl. unfold ticker_stats in Hb.
    destruct (history tk) as [raw | e]; [| discriminate Hb]. simpl in *.
    rewrite Hb. simpl. rewrite IH, <- app_assoc. reflexivity.
Qed.

Lemma ticker_stats_Ok
      (history : string -> result (list RawRow)) (tk : string)
      (block : list StatRow) :
  ticker_stats history tk = Ok block ->
  exists r raw,
    history tk = Ok (r :: raw)
    /\ Forall (fun s => s_ticker s = tk) block
    /\ NoDup (map s_year block)
    /\ (forall y, In y (map s_year block)
                  <-> In y (map (fun x => d_year (ts_date (Date_ x))) (r :: raw))).
Proof.
  unfold ticker_stats. intros H.
  apply bind_Ok_inv in H. destruct H as [raw [Hraw H]].
  destruct raw as [| r raw];
    [simpl in H; rewrite calculate_returns_and_std_nil in H; discriminate H |].
  exists r, raw. split; [exact Hraw |]. split; [| split].
  - apply (calculate_returns_and_std_label (r := _) (rest := _) H).
  - apply (calculate_returns_and_std_years _ H).
  - intros y. rewrite (calculate_returns_and_std_year_set _ y H).
    unfold clean_historical_data. rewrite map_map. reflexivity.
Qed.

Lemma concat_selected_tickers_Ok
      (history : string -> result (list RawRow)) (tickers : list string)
      (out : list StatRow) :
  concat_selected_tickers history tickers = Ok out ->
  tickers <> []
  /\ exists blocks,
      Forall2 (fun tk block => ticker_stats history tk = Ok block)
              tickers blocks
      /\ out = filter (fun r => negb (s_year r =? 2025)%Z) (concat blocks).
Proof.
  unfold concat_selected_tickers. intros H.
  apply bind_Ok_inv in H. destruct H as [dfs [Hloop H]].
  apply bind_Ok_inv in H. destruct H as [all [Hcat H]].
  injection H as <-.
  destruct (ticker_loop_blocks _ _ _ Hloop) as [blocks [-> Hall]].
  simpl in Hcat. split.
  - intros ->. inversion Hall; subst. discriminate Hcat.
  - exists blocks. split; [exact Hall |].
    destruct blocks; [discriminate Hcat |]. injection Hcat as <-. reflexivity.
Qed.

Lemma ticker_loop_good_prefix
      (history : string -> result (list RawRow)) (pre : list string) :
  (forall t, In t pre -> exists raw, history t = Ok raw /\ raw <> []) ->
  exists blocks,
    forall l acc,
      ticker_loop history (pre ++ l) acc
      = ticker_loop history l (acc ++ blocks).
Proof.
  induction pre as [| t pre IH]; intros Hgood.
  - exists []. intros l acc. now rewrite app_nil_r.
  - destruct (Hgood t (or_introl eq_refl)) as [raw [Hraw Hne]].
    destruct IH as [blocks IH]; [intros t' Ht'; apply Hgood; now right |].
    destruct raw as [| r raw]; [contradiction |].
    set (block := match calculate_returns_and_std
                          (clean_historical_data t (r :: raw)) with
                  | Ok b => b
                  | Raise _ => []
                  end).
    assert (Hb : calculate_returns_and_std (clean_historical_data t (r :: raw))
                 = Ok block).
    { unfold block. cbn [clean_historical_data map].
      now rewrite calculate_returns_and_std_cons. }
    exists (block :: blocks). intros l acc.
    cbn [app ticker_loop]. rewrite Hraw. cbn [bind].
    rewrite Hb. cbn [bind]. rewrite IH, <- app_assoc. reflexivity.
Qed.

(** X11. concat_selected_tickers raises ValueError when no ticker is
    selected.  Otherwise the first ticker, in selection order, whose history
    fails decides: an exception of the provider is passed on unchanged, and a
    history without rows raises IndexError; the tickers after it are not
    consulted. *)
Theorem concat_selected_tickers_raises
        (history : string -> result (list RawRow))
        (pre post : list string) (tk : string) :
  (forall t, In t pre -> exists raw, history t = Ok raw /\ raw <> []) ->
  concat_selected_tickers history [] = Raise ValueError
  /\ (forall e, history tk = Raise e ->
                concat_selected_tickers history (pre ++ tk :: post) = Raise e)
  /\ (history tk = Ok [] ->
      concat_selected_tickers history (pre ++ tk :: post) = Raise IndexError).
Proof.
  intros Hgood. split; [reflexivity |].
  destruct (ticker_loop_good_prefix history pre Hgood) as [blocks Hpre].
  unfold concat_selected_tickers. split.
  - intros e He. rewrite Hpre. simpl. now rewrite He.
  - intros He. rewrite Hpre. simpl. now rewrite He.
Qed.

Lemma concat_selected_tickers_raises_witness :
  (forall t, In t [TSLA] ->
             exists raw, demo_history t = Ok raw /\ raw <> [])
  /\ demo_history GME = Raise ProviderError
  /\ concat_selected_tickers demo_history ([TSLA] ++ GME :: [NVDA])
     = Raise ProviderError.
Proof.
  assert (H : forall t, In t [TSLA] ->
                        exists raw, demo_history t = Ok raw /\ raw <> []).
  { intros t [<- | []]. eexists. split; [reflexivity | discriminate]. }
  split; [exact H |]. split; [reflexivity |].
  exact (proj1 (proj2 (@concat_selected_tickers_raises
                         demo_history [TSLA] [NVDA] GME H))
               ProviderError eq_refl).
Defined.

Lemma Forall2_In_l (A B : Type) (R : A -> B -> Prop) (l : list A) (l' : list B)
      (x : A) :
  Forall2 R l l' -> In x l -> exists y, In y l' /\ R x y.
Proof.
  induction 1 as [| a b l l' Hab _ IH]; intros Hin; [destruct Hin |].
  destruct Hin as [-> | Hin].
  - exists b. split; [now left | exact Hab].
  - destruct (IH Hin) as [y [Hy Hr]]. exists y. split; [now right | exact Hr].
Qed.

Lemma Forall2_In_r (A B : Type) (R : A -> B -> Prop) (l : list A) (l' : list B)
      (y : B) :
  Forall2 R l l' -> In y l' -> exists x, In x l /\ R x y.
Proof.
  induction 1 as [| a b l l' Hab _ IH]; intros Hin; [destruct Hin |].
  destruct Hin as [-> | Hin].
  - exists a. split; [now left | exact Hab].
  - destruct (IH Hin) as [x [Hx Hr]]. exists x. split; [now right | exact Hr].
Qed.

(** X12. concat_selected_tickers returns a frame exactly when at least one
    ticker is selected and the provider delivers a history of at least one row
    for every selected ticker. *)
Theorem concat_selected_tickers_returns_iff
        (history : string -> result (list RawRow)) (tickers : list string) :
  (exists out, concat_selected_tickers history tickers = Ok out)
  <-> tickers <> []
      /\ forall tk, In tk tickers ->
                    exists raw, history tk = Ok raw /\ raw <> [].
Proof.
  split.
  - intros [out H]. apply concat_selected_tickers_Ok in H.
    destruct H as [Hne [blocks [Hall _]]]. split; [exact Hne |].
    intros tk Htk.
    destruct (@Forall2_In_l _ _ _ _ _ tk Hall Htk) as [block [_ Hb]].
    destruct (ticker_stats_Ok _ _ Hb) as [r [raw [Hraw _]]].
    exists (r :: raw). split; [exact Hraw | discriminate].
  - intros [Hne H]. now apply concat_selected_tickers_returns.
Qed.

Lemma blocks_tickers
      (history : string -> result (list RawRow)) (tickers : list string)
      (blocks : list (list StatRow)) (s : StatRow) :
  Forall2 (fun tk block => ticker_stats history tk = Ok block) tickers blocks ->
  In s (concat blocks) ->
  exists block,
    In (s_ticker s) tickers
    /\ ticker_stats history (s_ticker s) = Ok block
    /\ In s block.
Proof.
  intros Hall Hs. apply in_concat in Hs. destruct Hs as [block [Hb Hs]].
  destruct (@Forall2_In_r _ _ _ _ _ block Hall Hb) as [tk [Htk Hst]].
  destruct (ticker_stats_Ok _ _ Hst) as [_ [_ [_ [Hlabel _]]]].
  rewrite Forall_forall in Hlabel. rewrite (Hlabel s Hs).
  exists block. now repeat split.
Qed.

Lemma blocks_keys_NoDup
      (history : string -> result (list RawRow)) (tickers : list string)
      (blocks : list (list StatRow)) :
  Forall2 (fun tk block => ticker_stats history tk = Ok block) tickers blocks ->
  NoDup tickers ->
  NoDup (map stat_key (concat blocks)).
Proof.
  induction 1 as [| tk block tks bs Hb Hall IH]; intros Hnd; simpl.
  - constructor.
  - inversion Hnd as [| ? ? Hnotin Hnd']; subst.
    destruct (ticker_stats_Ok _ _ Hb) as [_ [_ [_ [Hlabel [Hyears _]]]]].
    rewrite map_app. apply NoDup_app.
    + apply NoDup_map_inv with (f := snd). now rewrite map_map.
    + now apply IH.
    + intros k Hk1 Hk2.
      apply in_map_iff in Hk1. destruct Hk1 as [s1 [<- Hs1]].
      apply in_map_iff in Hk2. destruct Hk2 as [s2 [E Hs2]].
      rewrite Forall_forall in Hlabel.
      destruct (@blocks_tickers _ _ _ _ Hall Hs2) as [_ [Hin _]].
      unfold stat_key in E. injection E as Et _.
      apply Hnotin. now rewrite <- (Hlabel s1 Hs1), <- Et.
Qed.

(** X13. The frame that concat_selected_tickers returns holds, for the
    selected tickers, exactly the rows of their yearly statistics whose year
    is not 2025, each row labelled with the ticker it was computed for; when
    no ticker is selected twice, no two rows share ticker and year. *)
Theorem combined_frame_rows
        (history : string -> result (list RawRow)) (tickers : list string)
        (out : list StatRow) :
  concat_selected_tickers history tickers = Ok out ->
  (forall s,
      In s out <->
      s_year s <> 2025%Z
      /\ In (s_ticker s) tickers
      /\ exists block,
          ticker_stats history (s_ticker s) = Ok block /\ In s block)
  /\ (NoDup tickers -> NoDup (map stat_key out)).
Proof.
  intros H. apply concat_selected_tickers_Ok in H.
  destruct H as [_ [blocks [Hall ->]]]. split.
  - intros s. rewrite filter_In, negb_true_iff, Z.eqb_neq. split.
    + intros [Hs Hy]. split; [exact Hy |].
      destruct (@blocks_tickers _ _ _ _ Hall Hs) as [block [Htk [Hb Hin]]].
      split; [exact Htk | now exists block].
    + intros [Hy [Htk [block [Hb Hin]]]]. split; [| exact Hy].
      destruct (@Forall2_In_l _ _ _ _ _ _ Hall Htk) as [block' [Hb' Hst]].
      rewrite Hb in Hst. injection Hst as <-.
      apply in_concat. now exists block.
  - intros Hnd. pose proof (@blocks_keys_NoDup _ _ _ Hall Hnd) as Hk.
    set (l := concat blocks) in *. clearbody l. clear -Hk.
    induction l as [| s l IH]; simpl; [constructor |].
    simpl in Hk. inversion Hk as [| ? ? Hnotin Hk']; subst.
    destruct (negb (s_year s =? 2025)%Z); simpl; [| now apply IH].
    constructor; [| now apply IH].
    intros Hin. apply Hnotin. apply in_map_iff in Hin.
    destruct Hin as [s' [E Hs']]. apply filter_In in Hs'.
    rewrite <- E. apply in_map. tauto.
Qed.

Lemma combined_frame_rows_witness :
  concat_selected_tickers demo_history [TSLA] = Ok demo_selected
  /\ NoDup [TSLA]
  /\ NoDup (map stat_key demo_selected)
  /\ map stat_key demo_selected = [(TSLA, 2024%Z)].
Proof.
  assert (Hnd : NoDup [TSLA]) by (constructor; [intros [] | constructor]).
  split; [reflexivity |]. split; [exact Hnd |].
  split; [| reflexivity].
  exact (proj2 (@combined_frame_rows demo_history [TSLA] demo_selected eq_refl)
               Hnd).
Defined.



Lemma TICKERS_NoDup : NoDup TICKERS.
Proof.
  unfold TICKERS, BRK_B, HP, TSLA, GME, NVDA.
  repeat constructor; simpl; intuition discriminate.
Qed.

(** X15. When the module-level statements succeed, every row of combined_df
    carries one of the five tickers of TICKERS and no two rows share ticker
    and year; index_df has one row, labelled "INDEX", for each year that
    occurs in combined_df, and so none for 2025. *)
Theorem main_script_frames
        (history : string -> result (list RawRow))
        (combined_df index_df : list StatRow) :
  main_script history = Ok (combined_df, index_df) ->
  Forall (fun s => In (s_ticker s) TICKERS) combined_df
  /\ NoDup (map stat_key combined_df)
  /\ Forall (fun r => s_ticker r = "INDEX"%string /\ s_year r <> 2025%Z) index_df
  /\ NoDup (map s_year index_df)
  /\ (forall y, In y (map s_year index_df) <-> In y (map s_year combined_df)).
Proof.
  unfold main_script. intros H.
  apply bind_Ok_inv in H. destruct H as [combined [Hc H]].
  injection H as <- <-.
  assert (Hyears : forall y, In y (map s_year (construct_index combined))
                             <-> In y (map s_year combined)).
  { intros y. rewrite <- (group_by_keys s_year combined y).
    split; apply Permutation_in; [| apply Permutation_sym];
      apply construct_index_years. }
  pose proof (concat_selected_tickers_Ok _ _ Hc) as [_ [blocks [Hall Hout]]].
  split; [| split; [| split; [| split]]].
  - rewrite Forall_forall. intros s Hs. rewrite Hout in Hs.
    apply filter_In in Hs. destruct Hs as [Hs _].
    now destruct (@blocks_tickers _ _ _ _ Hall Hs) as [_ [Htk _]].
  - rewrite Hout.
    pose proof (@blocks_keys_NoDup _ _ _ Hall TICKERS_NoDup) as Hk.
    set (l := concat blocks) in *. clearbody l. clear -Hk.
    induction l as [| s l IH]; simpl; [constructor |].
    simpl in Hk. inversion Hk as [| ? ? Hnotin Hk']; subst.
    destruct (negb (s_year s =? 2025)%Z); simpl; [| now apply IH].
    constructor; [| now apply IH].
    intros Hin. apply Hnotin. apply in_map_iff in Hin.
    destruct Hin as [s' [E Hs']]. apply filter_In in Hs'.
    rewrite <- E. apply in_map. tauto.
  - rewrite Forall_forall. intros r Hr. split.
    + apply construct_index_In in Hr. now destruct Hr as [y [_ ->]].
    + assert (Hy : In (s_year r) (map s_year combined))
        by (apply Hyears; now apply in_map).
      apply in_map_iff in Hy. destruct Hy as [s [<- Hs]].
      rewrite Hout in Hs. apply filter_In in Hs. destruct Hs as [_ Hs].
      now apply negb_true_iff, Z.eqb_neq in Hs.
  - apply construct_index_NoDup.
  - exact Hyears.
Qed.

Lemma main_script_frames_witness :
  main_script demo_market = Ok demo_main
  /\ map stat_key (fst demo_main)
     = [(BRK_B, 2024%Z); (HP, 2024%Z); (TSLA, 2024%Z); (GME, 2024%Z);
        (NVDA, 2024%Z)]
  /\ map s_year (snd demo_main) = [2024%Z]
  /\ NoDup (map stat_key (fst demo_main))
  /\ Forall (fun r => s_ticker r = "INDEX"%string /\ s_year r <> 2025%Z)
            (snd demo_main).
Proof.
  split; [reflexivity |]. split; [reflexivity |]. split; [reflexivity |].
  destruct (@main_script_frames demo_market (fst demo_main) (snd demo_main)
                                eq_refl)
    as (_ & Hkeys & Hindex & _).
  split; [exact Hkeys | exact Hindex].
Defined.

(** * Properties of the extraction script *)

Lemma string_length_append (s1 s2 : string) :
  String.length (s1 ++ s2)%string = (String.length s1 + String.length s2)%nat.
Proof. induction s1 as [| c s1 IH]; simpl; [reflexivity | now rewrite IH]. Qed.

Lemma string_append_inj_l (s x y : string) :
  (x ++ s = y ++ s)%string -> x = y.
Proof.
  revert y; induction x as [| c x IH]; intros [| d y] H.
  - reflexivity.
  - apply (f_equal String.length) in H.
    simpl in H. rewrite string_length_append in H. lia.
  - apply (f_equal String.length) in H.
    simpl in H. rewrite string_length_append in H. lia.
  - simpl in H. injection H as -> H. f_equal. now apply IH.
Qed.

(** Distinct tickers are written to distinct files. *)
Lemma csv_path_inj (a b : string) : csv_path a = csv_path b -> a = b.
Proof.
  unfold csv_path. simpl. intros H.
  injection H as H. now apply string_append_inj_l in H.
Qed.

Section ExtractFacts.
Variable Cols : Type.
Variable daily_history : string -> result (list (DailyRow Cols)).

Lemma read_csv_write_same (path : string) (df : list (ExportRow Cols))
      (fs : Files Cols) :
  read_csv path (write_csv path df fs) = Some df.
Proof. unfold write_csv. simpl. now rewrite String.eqb_refl. Qed.

Lemma read_csv_write_other (path p : string) (df : list (ExportRow Cols))
      (fs : Files Cols) :
  p <> path -> read_csv path (write_csv p df fs) = read_csv path fs.
Proof.
  intros H. unfold write_csv. simpl.
  destruct (String.eqb_spec p path); [contradiction | reflexivity].
Qed.

Lemma extract_loop_ok (tickers : list string) (fs : Files Cols) :
  (forall tk, In tk tickers -> exists raw, daily_history tk = Ok raw) ->
  exists fs',
    extract_loop daily_history tickers fs = (fs', Ok tt)
    /\ (forall tk, In tk tickers ->
                   exists raw,
                     daily_history tk = Ok raw
                     /\ read_csv (csv_path tk) fs' = Some (export_frame tk raw))
    /\ (forall path,
           (forall tk, In tk tickers -> path <> csv_path tk) ->
           read_csv path fs' = read_csv path fs).
Proof.
  revert fs; induction tickers as [| t rest IH]; intros fs Hgood.
  - exists fs. split; [reflexivity |]. split; [intros tk [] | reflexivity].
  - destruct (Hgood t (or_introl eq_refl)) as [raw Hraw].
    destruct (IH (write_csv (csv_path t) (export_frame t raw) fs))
      as [fs' [Hrun [Hfiles Hother]]];
      [intros tk Htk; apply Hgood; now right |].
    exists fs'. split; [simpl; now rewrite Hraw |]. split.
    + intros tk Htk.
      destruct (in_dec string_dec tk rest) as [Hin | Hnotin];
        [now apply Hfiles |].
      destruct Htk as [<- | Htk]; [| contradiction].
      exists raw. split; [exact Hraw |].
      rewrite Hother; [apply read_csv_write_same |].
      intros tk Htk E. apply csv_path_inj in E. congruence.
    + intros path Hpath.
      rewrite Hother by (intros tk Htk; apply Hpath; now right).
      apply read_csv_write_other. intros E.
      apply (Hpath t (or_introl eq_refl)). now symmetry.
Qed.

Lemma extract_loop_app (pre l : list string) (fs : Files Cols) :
  (forall tk, In tk pre -> exists raw, daily_history tk = Ok raw) ->
  extract_loop daily_history (pre ++ l) fs
  = extract_loop daily_history l (fst (extract_loop daily_history pre fs)).
Proof.
  revert fs; induction pre as [| t pre IH]; intros fs Hgood.
  - reflexivity.
  - destruct (Hgood t (or_introl eq_refl)) as [raw Hraw].
    simpl. rewrite Hraw. apply IH. intros tk Htk. apply Hgood. now right.
Qed.

(** X16. When the provider answers for every ticker, the script ends
    normally and has written, for each ticker, the file
    extracted_data/<ticker>.csv holding the ticker's history row for row:
    the date without its time of day, the provider's other columns as they
    came, and the ticker in every row; no other file is touched. *)
Theorem extraction_writes_one_file_per_ticker
        (tickers : list string) (fs : Files Cols) :
  (forall tk, In tk tickers -> exists raw, daily_history tk = Ok raw) ->
  exists fs',
    extract_loop daily_history tickers fs = (fs', Ok tt)
    /\ (forall tk, In tk tickers ->
                   exists raw,
                     daily_history tk = Ok raw
                     /\ read_csv (csv_path tk) fs' = Some (export_frame tk raw)
                     /\ length (export_frame tk raw) = length raw
                     /\ map (@x_cols Cols) (export_frame tk raw)
                        = map (@day_cols Cols) raw
                     /\ Forall (fun r => x_ticker r = tk) (export_frame tk raw))
    /\ (forall path,
           (forall tk, In tk tickers -> path <> csv_path tk) ->
           read_csv path fs' = read_csv path fs).
Proof.
  intros Hgood.
  destruct (extract_loop_ok tickers fs Hgood) as [fs' [Hrun [Hfiles Hother]]].
  exists fs'. split; [exact Hrun |]. split; [| exact Hother].
  intros tk Htk. destruct (Hfiles tk Htk) as [raw [Hraw Hread]].
  exists raw. split; [exact Hraw |]. split; [exact Hread |].
  unfold export_frame. split; [apply length_map |]. split.
  - now rewrite map_map.
  - rewrite Forall_forall. intros r Hr. apply in_map_iff in Hr.
    now destruct Hr as [x [<- _]].
Qed.

(** X17. When the provider raises for a ticker and has answered for the
    tickers before it, the script stops with that exception: the files of the
    earlier tickers are written, and the files of the failing ticker and of
    the tickers after it are as they were. *)
Theorem extraction_stops_at_first_failure
        (pre post : list string) (tk : string) (e : exn) (fs : Files Cols) :
  (forall t, In t pre -> exists raw, daily_history t = Ok raw) ->
  daily_history tk = Raise e ->
  exists fs',
    extract_loop daily_history (pre ++ tk :: post) fs = (fs', Raise e)
    /\ (forall t, In t pre ->
                  exists raw,
                    daily_history t = Ok raw
                    /\ read_csv (csv_path t) fs' = Some (export_frame t raw))
    /\ (forall path,
           (forall t, In t pre -> path <> csv_path t) ->
           read_csv path fs' = read_csv path fs).
Proof.
  intros Hgood He.
  destruct (extract_loop_ok pre fs Hgood) as [fs' [Hrun [Hfiles Hother]]].
  exists fs'. split; [| split; [exact Hfiles | exact Hother]].
  rewrite (extract_loop_app pre (tk :: post) fs Hgood), Hrun. simpl.
  now rewrite He.
Qed.
End ExtractFacts.

Lemma extraction_writes_one_file_per_ticker_witness :
  (forall tk, In tk [TSLA; GME] -> exists raw, demo_daily tk = Ok raw)
  /\ exists fs',
      extract_loop demo_daily [TSLA; GME] [] = (fs', Ok tt)
      /\ forall tk, In tk [TSLA; GME] ->
                    exists raw,
                      demo_daily tk = Ok raw
                      /\ read_csv (csv_path tk) fs' = Some (export_frame tk raw).
Proof.
  assert (H : forall tk, In tk [TSLA; GME] -> exists raw, demo_daily tk = Ok raw).
  { intros tk [<- | [<- | []]]; eexists; reflexivity. }
  split; [exact H |].
  destruct (@extraction_writes_one_file_per_ticker R demo_daily [TSLA; GME] [] H)
    as [fs' [Hrun [Hfiles _]]].
  exists fs'. split; [exact Hrun |].
  intros tk Htk. destruct (Hfiles tk Htk) as [raw [Hraw [Hread _]]].
  now exists raw.
Defined.

Lemma extraction_stops_at_first_failure_witness :
  (forall t, In t [TSLA] -> exists raw, demo_daily t = Ok raw)
  /\ demo_daily NVDA = Raise ProviderError
  /\ exists fs',
      extract_loop demo_daily ([TSLA] ++ NVDA :: [GME]) [] = (fs', Raise ProviderError)
      /\ read_csv (csv_path GME) fs' = None.
Proof.
  assert (H : forall t, In t [TSLA] -> exists raw, demo_daily t = Ok raw).
  { intros t [<- | []]; eexists; reflexivity. }
  split; [exact H |]. split; [reflexivity |].
  destruct (@extraction_stops_at_first_failure R demo_daily [TSLA] [GME] NVDA
              ProviderError [] H eq_refl)
    as [fs' [Hrun [_ Hother]]].
  exists fs'. split; [exact Hrun |].
  rewrite Hother; [reflexivity |].
  intros t [<- | []] E. apply csv_path_inj in E. discriminate E.
Defined.

(** * Properties of clean_historical_data *)


